(** * Realtime chat backend: session and fan-out subsystem

    A shallow embedding of [backend/sockets/chat.js] and
    [backend/utils/redisClient.js], followed by the properties of the
    design document that were checked against it.

    Conventions of the embedding.
    - JavaScript strings are [string]; integers ([Date.now()], counters,
      timestamps in milliseconds) are [Z].
    - A JavaScript [Map] is an association list in insertion order, because
      [LimitedMap] evicts by insertion order.
    - Every handler is a function from the server state to the server state;
      what a handler emits is appended to the [outbox] of the state.  A
      handler runs to completion between two events, its awaits on the stores
      being taken as immediate.  The suspensions that are modelled are the
      pre-emption wait of [handleDuplicateLogin], the two awaits of
      [onComplete] in [handleAIResponse], the waits between the attempts of
      [loadMessagesWithRetry] and the timer that ends a
      [fetchPreviousMessages].
    - [Date.now()] is the argument [now] of the handlers. *)

From Stdlib Require Import ZArith Lia Ascii.
From stdpp Require Import base option list strings gmap pretty sorting.

Local Open Scope string_scope.
Local Open Scope list_scope.
Local Open Scope Z_scope.

(* ================================================================= *)
(** ** JavaScript truthiness *)

(** [if (v)] in the source: which values of a type count as true. *)
Class Truthy (A : Type) := truthy : A → bool.

#[global] Instance string_truthy : Truthy string :=
  λ s, if decide (s = "") then false else true.
#[global] Instance Z_truthy : Truthy Z :=
  λ n, if decide (n = 0) then false else true.
#[global] Instance option_truthy {A} `{Truthy A} : Truthy (option A) :=
  λ o, match o with Some a => truthy a | None => false end.

(* ================================================================= *)
(** ** [LimitedMap]: the bounded registry (chat.js, lines 14-45) *)

Module LimitedMap.
Section defs.
Context {K V : Type} `{EqDecision K} `{Truthy V}.

(** [class LimitedMap extends Map]: the entries of the underlying [Map] in
    insertion order, and the three fields the constructor adds. *)
Record t := mk {
  entries : list (K * V);
  maxSize : nat;
  hitCount : nat;
  missCount : nat
}.

(** [constructor(maxSize = 1000)] *)
Definition create (n : nat) : t :=
  {| entries := []; maxSize := n; hitCount := 0; missCount := 0 |}.

(** *** The inherited [Map] operations on the entry list *)

(** [Map.prototype.get] *)
Fixpoint Map_get (k : K) (l : list (K * V)) : option V :=
  match l with
  | [] => None
  | (k', v) :: l' => if decide (k' = k) then Some v else Map_get k l'
  end.

(** [Map.prototype.set]: an existing key keeps its place in the insertion
    order, a new key goes last. *)
Fixpoint Map_set (k : K) (v : V) (l : list (K * V)) : list (K * V) :=
  match l with
  | [] => [(k, v)]
  | (k', v') :: l' =>
      if decide (k' = k) then (k, v) :: l' else (k', v') :: Map_set k v l'
  end.

(** [Map.prototype.delete] *)
Definition Map_delete (k : K) (l : list (K * V)) : list (K * V) :=
  filter (λ e, e.1 ≠ k) l.

Definition with_entries (l : list (K * V)) (m : t) : t :=
  {| entries := l; maxSize := maxSize m;
     hitCount := hitCount m; missCount := missCount m |}.

(** [this.size] *)
Definition size (m : t) : nat := length (entries m).

(** [this.keys()], [this.values()] *)
Definition keys (m : t) : list K := (entries m).*1.
Definition values (m : t) : list V := (entries m).*2.

(** [this.keys().next().value] *)
Definition oldestKey (m : t) : option K := head (keys m).

(** [super.get(key)], without the counters: used to state properties. *)
Definition lookup (k : K) (m : t) : option V := Map_get k (entries m).

(** [has(key)], [delete(key)], [clear()] are inherited unchanged. *)
Definition has (k : K) (m : t) : bool := bool_decide (is_Some (lookup k m)).
Definition delete (k : K) (m : t) : t :=
  with_entries (Map_delete k (entries m)) m.
Definition clear (m : t) : t := with_entries [] m.

(** [set(key, value)]:
<<
    if (this.size >= this.maxSize) {
      const oldestKey = this.keys().next().value;
      this.delete(oldestKey);
    }
    return super.set(key, value);
>>
    On an empty map [oldestKey] is [undefined] and the delete removes
    nothing. *)
Definition set (k : K) (v : V) (m : t) : t :=
  let m1 :=
    if decide (maxSize m ≤ size m)%nat then
      match oldestKey m with
      | Some o => delete o m
      | None => m
      end
    else m in
  with_entries (Map_set k v (entries m1)) m1.

(** [get(key)]: the value, and the map with its hit or miss counted. *)
Definition get (k : K) (m : t) : option V * t :=
  let value := lookup k m in
  (value,
   if truthy value
   then {| entries := entries m; maxSize := maxSize m;
           hitCount := S (hitCount m); missCount := missCount m |}
   else {| entries := entries m; maxSize := maxSize m;
           hitCount := hitCount m; missCount := S (missCount m) |}).

(** A write through the reference that [get] returned ([cached.count++],
    [session.content += chunk]): the stored object changes in place. *)
Fixpoint Map_mutate (k : K) (f : V → V) (l : list (K * V)) : list (K * V) :=
  match l with
  | [] => []
  | (k', v) :: l' =>
      if decide (k' = k) then (k', f v) :: l' else (k', v) :: Map_mutate k f l'
  end.

Definition mutate (k : K) (f : V → V) (m : t) : t :=
  with_entries (Map_mutate k f (entries m)) m.

(** A sequence of operations on one registry. *)
Inductive op :=
| OpSet (k : K) (v : V)
| OpGet (k : K)
| OpHas (k : K)
| OpDelete (k : K)
| OpClear.

Definition apply (m : t) (o : op) : t :=
  match o with
  | OpSet k v => set k v m
  | OpGet k => (get k m).2
  | OpHas _ => m
  | OpDelete k => delete k m
  | OpClear => clear m
  end.

Definition run (ops : list op) (m : t) : t := foldl apply m ops.

(** No key occurs twice: the invariant of a JavaScript [Map]. *)
Definition wf (m : t) : Prop := NoDup (keys m).
End defs.
Arguments t : clear implicits.
Arguments op : clear implicits.
End LimitedMap.

#[global] Instance LimitedMap_truthy {K V} : Truthy (LimitedMap.t K V) := λ _, true.

(* ================================================================= *)
(** ** JavaScript values and JSON *)

(** The values that cross the cache and the wire: what [JSON.parse] returns
    and what [socket.emit] is given. *)
#[warnings="-register-all"]
Inductive JsValue :=
| JNull
| JBool (b : bool)
| JNum (n : Z)
| JStr (s : string)
| JArr (l : list JsValue)
| JObj (fields : list (string * JsValue)).

(** [typeof v].  [typeof null] is ["object"]. *)
Definition typeof (v : JsValue) : string :=
  match v with
  | JNull | JArr _ | JObj _ => "object"
  | JBool _ => "boolean"
  | JNum _ => "number"
  | JStr _ => "string"
  end.

#[global] Instance JsValue_truthy : Truthy JsValue := λ v,
  match v with
  | JNull => false
  | JBool b => b
  | JNum n => truthy n
  | JStr s => truthy s
  | JArr _ | JObj _ => true
  end.

(** [v.name] on a decoded value; [None] is [undefined]. *)
Fixpoint assoc_field (name : string) (fs : list (string * JsValue)) : option JsValue :=
  match fs with
  | [] => None
  | (k, v) :: fs' => if decide (k = name) then Some v else assoc_field name fs'
  end.

Definition js_field (name : string) (v : JsValue) : option JsValue :=
  match v with
  | JObj fs => assoc_field name fs
  | _ => None
  end.

Definition js_string (o : option string) : JsValue :=
  match o with Some s => JStr s | None => JNull end.

(** The two built-ins the source uses.  The handlers below are written over
    this interface, so that what is proved of them holds for every decoder;
    [fragment_json] further down is an executable instance. *)
Class JSON := {
  JSON_parse : string → option JsValue;   (* [None]: a [SyntaxError] is thrown *)
  JSON_stringify : JsValue → string
}.

(** *** An executable codec for a fragment of JSON

    Integers without fraction or exponent, strings over ASCII, arrays,
    objects and the three literals.  Text outside the fragment is rejected. *)
Module JsonFragment.

(** The double quote and the backslash. *)
Definition dquote : ascii := ascii_of_N 34.
Definition backslash : ascii := ascii_of_N 92.

Definition hex_digit (n : N) : ascii :=
  match n with
  | 0 => "0" | 1 => "1" | 2 => "2" | 3 => "3" | 4 => "4" | 5 => "5"
  | 6 => "6" | 7 => "7" | 8 => "8" | 9 => "9" | 10 => "a" | 11 => "b"
  | 12 => "c" | 13 => "d" | 14 => "e" | _ => "f"
  end%N%char.

Definition escape_char (c : ascii) : string :=
  let n := N_of_ascii c in
  if decide (c = dquote) then String backslash (String dquote "")
  else if decide (c = backslash) then String backslash (String backslash "")
  else if decide (n = 8)%N then String backslash "b"
  else if decide (n = 9)%N then String backslash "t"
  else if decide (n = 10)%N then String backslash "n"
  else if decide (n = 12)%N then String backslash "f"
  else if decide (n = 13)%N then String backslash "r"
  else if decide (n < 32)%N then
    String backslash "u00"
      +:+ String (hex_digit (n / 16)) (String (hex_digit (n mod 16)) "")
  else String c "".

Fixpoint escape (s : string) : string :=
  match s with
  | "" => ""
  | String c s' => escape_char c +:+ escape s'
  end.

Definition quote (s : string) : string :=
  String dquote (escape s +:+ String dquote "").

Fixpoint join (sep : string) (l : list string) : string :=
  match l with
  | [] => ""
  | [x] => x
  | x :: l' => x +:+ sep +:+ join sep l'
  end.

Fixpoint stringify (v : JsValue) : string :=
  match v with
  | JNull => "null"
  | JBool true => "true"
  | JBool false => "false"
  | JNum n => pretty n
  | JStr s => quote s
  | JArr l => "[" +:+ join "," (map stringify l) +:+ "]"
  | JObj fs =>
      "{" +:+ join "," (map (λ kv, quote kv.1 +:+ ":" +:+ stringify kv.2) fs) +:+ "}"
  end.

Definition is_ws (c : ascii) : bool :=
  let n := N_of_ascii c in
  bool_decide (n = 32 ∨ n = 9 ∨ n = 10 ∨ n = 13)%N.

Fixpoint skip_ws (s : string) : string :=
  match s with
  | String c s' => if is_ws c then skip_ws s' else s
  | "" => ""
  end.

Definition digit_of (c : ascii) : option Z :=
  let n := N_of_ascii c in
  if decide (48 ≤ n ∧ n ≤ 57)%N then Some (Z.of_N n - 48) else None.

(** The digits at the head of [s]: their number, their value, the rest. *)
Fixpoint read_digits (acc : Z) (count : nat) (s : string) : nat * Z * string :=
  match s with
  | String c s' =>
      match digit_of c with
      | Some d => read_digits (10 * acc + d) (S count) s'
      | None => (count, acc, s)
      end
  | "" => (count, acc, s)
  end.

Definition starts_number_tail (s : string) : bool :=
  match s with
  | String c _ => bool_decide (c = "."%char ∨ c = "e"%char ∨ c = "E"%char)
  | "" => false
  end.

(** [-]? then [0] or a digit string without leading zero. *)
Definition read_int (s : string) : option (Z * string) :=
  let '(neg, body) :=
    match s with
    | String "-" s' => (true, s')
    | _ => (false, s)
    end in
  let '(count, n, rest) := read_digits 0 0 body in
  let leading_zero :=
    match body with String "0" _ => true | _ => false end in
  if decide (count = 0)%nat then None
  else if leading_zero && negb (bool_decide (count = 1)%nat) then None
  else if starts_number_tail rest then None
  else Some (if neg then - n else n, rest).

Definition hex_value (c : ascii) : option N :=
  let n := N_of_ascii c in
  if decide (48 ≤ n ∧ n ≤ 57)%N then Some (n - 48)%N
  else if decide (97 ≤ n ∧ n ≤ 102)%N then Some (n - 87)%N
  else if decide (65 ≤ n ∧ n ≤ 70)%N then Some (n - 55)%N
  else None.

(** The characters of a string literal after its opening quote. *)
Fixpoint read_string (s : string) : option (string * string) :=
  match s with
  | "" => None
  | String c s' =>
      if decide (c = dquote) then Some ("", s')
      else if decide (c = backslash) then
        match s' with
        | String e s'' =>
            let simple (x : ascii) :=
              '(str, rest) ← read_string s''; Some (String x str, rest) in
            if decide (e = dquote) then simple dquote
            else if decide (e = backslash) then simple backslash
            else if decide (e = "/"%char) then simple "/"%char
            else if decide (e = "b"%char) then simple (ascii_of_N 8)
            else if decide (e = "t"%char) then simple (ascii_of_N 9)
            else if decide (e = "n"%char) then simple (ascii_of_N 10)
            else if decide (e = "f"%char) then simple (ascii_of_N 12)
            else if decide (e = "r"%char) then simple (ascii_of_N 13)
            else if decide (e = "u"%char) then
              match s'' with
              | String "0" (String "0" (String h (String l s3))) =>
                  hi ← hex_value h; lo ← hex_value l;
                  if decide (16 * hi + lo < 128)%N then
                    '(str, rest) ← read_string s3;
                    Some (String (ascii_of_N (16 * hi + lo)) str, rest)
                  else None
              | _ => None
              end
            else None
        | "" => None
        end
      else if decide (N_of_ascii c < 32)%N then None
      else '(str, rest) ← read_string s'; Some (String c str, rest)
  end.

Definition expect (lit : string) (s : string) : option string :=
  if String.prefix lit s
  then Some (String.substring (String.length lit)
               (String.length s - String.length lit) s)
  else None.

Fixpoint parse_value (fuel : nat) (s : string) {struct fuel}
  : option (JsValue * string) :=
  match fuel with
  | O => None
  | S fuel =>
      match skip_ws s with
      | "" => None
      | String c rest as s0 =>
          if decide (c = "n"%char) then r ← expect "null" s0; Some (JNull, r)
          else if decide (c = "t"%char) then r ← expect "true" s0; Some (JBool true, r)
          else if decide (c = "f"%char) then r ← expect "false" s0; Some (JBool false, r)
          else if decide (c = dquote) then
            '(str, r) ← read_string rest; Some (JStr str, r)
          else if decide (c = "["%char) then
            match skip_ws rest with
            | String "]" r => Some (JArr [], r)
            | r0 => '(l, r) ← parse_elems fuel r0; Some (JArr l, r)
            end
          else if decide (c = "{"%char) then
            match skip_ws rest with
            | String "}" r => Some (JObj [], r)
            | r0 => '(fs, r) ← parse_members fuel r0; Some (JObj fs, r)
            end
          else '(n, r) ← read_int s0; Some (JNum n, r)
      end
  end
with parse_elems (fuel : nat) (s : string) {struct fuel}
  : option (list JsValue * string) :=
  match fuel with
  | O => None
  | S fuel =>
      '(v, r) ← parse_value fuel s;
      match skip_ws r with
      | String "," r' => '(l, r'') ← parse_elems fuel r'; Some (v :: l, r'')
      | String "]" r' => Some ([v], r')
      | _ => None
      end
  end
with parse_members (fuel : nat) (s : string) {struct fuel}
  : option (list (string * JsValue) * string) :=
  match fuel with
  | O => None
  | S fuel =>
      match skip_ws s with
      | String c r0 =>
          if decide (c = dquote) then
            '(k, r1) ← read_string r0;
            match skip_ws r1 with
            | String ":" r2 =>
                '(v, r3) ← parse_value fuel r2;
                match skip_ws r3 with
                | String "," r4 =>
                    '(fs, r5) ← parse_members fuel r4; Some ((k, v) :: fs, r5)
                | String "}" r4 => Some ([(k, v)], r4)
                | _ => None
                end
            | _ => None
            end
          else None
      | _ => None
      end
  end.

Definition parse (s : string) : option JsValue :=
  '(v, r) ← parse_value (S (String.length s)) s;
  if decide (skip_ws r = "") then Some v else None.

End JsonFragment.

Definition fragment_json : JSON :=
  {| JSON_parse := JsonFragment.parse; JSON_stringify := JsonFragment.stringify |}.

(* ================================================================= *)
(** ** Numbers as the cache sees them *)

(** A JavaScript number that is an integer or [NaN] ([parseInt] of text that
    does not start with digits). *)
Inductive number :=
| Int (n : Z)
| NaN.

Definition number_succ (x : number) : number :=
  match x with Int n => Int (n + 1) | NaN => NaN end.

(** [x >= n], [x > n], [x === n]: every comparison with [NaN] is false. *)
Definition number_ge (x : number) (n : Z) : bool :=
  match x with Int m => bool_decide (n ≤ m) | NaN => false end.
Definition number_gt (x : number) (n : Z) : bool :=
  match x with Int m => bool_decide (n < m) | NaN => false end.
Definition number_is (x : number) (n : Z) : bool :=
  match x with Int m => bool_decide (m = n) | NaN => false end.

(** [x.toString()] *)
Definition number_toString (x : number) : string :=
  match x with Int n => pretty n | NaN => "NaN" end.

(** [parseInt(s)]: leading white space, a sign, then the longest run of
    digits; what follows is ignored. *)
Definition parseInt (s : string) : number :=
  let s0 := JsonFragment.skip_ws s in
  let '(neg, body) :=
    match s0 with
    | String "-" s' => (true, s')
    | String "+" s' => (false, s')
    | _ => (false, s0)
    end in
  let '(count, n, _) := JsonFragment.read_digits 0 0 body in
  if decide (count = 0)%nat then NaN else Int (if neg then - n else n).

(** [String(v)] for a value that is not an object. *)
Definition String_of (v : JsValue) : string :=
  match v with
  | JStr s => s
  | JNum n => pretty n
  | JBool true => "true"
  | JBool false => "false"
  | JNull => "null"
  | JArr _ | JObj _ => "[object Object]"
  end.

(* ================================================================= *)
(** ** The cache client (utils/redisClient.js) *)

(** One stored entry: [{ value, expires }], [expires] in milliseconds or
    [null]. *)
Record Item := mkItem {
  item_value : string;
  item_expires : option Z
}.

(** What a call on the client gives back: a value, or an exception. *)
Inductive outcome (A : Type) :=
| Returned (a : A)
| Thrown.
Arguments Returned {A} a.
Arguments Thrown {A}.

(** *** [class MockRedisClient] (lines 5-87) *)
Module MockRedisClient.
Section defs.
Context `{JSON}.

(** [typeof value === 'object' ? JSON.stringify(value) : String(value)] *)
Definition stringValue (value : JsValue) : string :=
  if decide (typeof value = "object") then JSON_stringify value
  else String_of value.

(** [set(key, value, options)], [options.ttl] in seconds ([None] when the
    call gives no option). *)
Definition set (now : Z) (key : string) (value : JsValue) (ttl : option Z)
    (st : gmap string Item) : gmap string Item :=
  <[key := {| item_value := stringValue value;
              item_expires := if truthy ttl
                              then (λ t, now + t * 1000) <$> ttl
                              else None |}]> st.

(** [get(key)]: [None] is [null]. *)
Definition get (now : Z) (key : string) (st : gmap string Item) : option string * gmap string Item :=
  match st !! key with
  | None => (None, st)
  | Some item =>
      if truthy (item_expires item)
         && bool_decide (default 0 (item_expires item) < now)
      then (None, delete key st)
      else (Some (item_value item), st)
  end.

(** [setEx(key, seconds, value)], and its alias [setex] *)
Definition setEx (now : Z) (key : string) (seconds : Z) (value : JsValue)
    (st : gmap string Item) : gmap string Item :=
  set now key value (Some seconds) st.

(** [del(key)] *)
Definition del (key : string) (st : gmap string Item) : Z * gmap string Item :=
  (if bool_decide (is_Some (st !! key)) then 1 else 0, delete key st).

(** [expire(key, seconds)] *)
Definition expire (now : Z) (key : string) (seconds : Z) (st : gmap string Item)
    : Z * gmap string Item :=
  match st !! key with
  | Some item =>
      (1, <[key := {| item_value := item_value item;
                      item_expires := Some (now + seconds * 1000) |}]> st)
  | None => (0, st)
  end.

(** [incr(key)]:
<<
    const item = this.store.get(key);
    let currentValue = 1;
    if (item && !item.expires || (item.expires && Date.now() <= item.expires)) {
      currentValue = parseInt(item.value) + 1;
    }
    this.store.set(key, { value: currentValue.toString(),
                          expires: item?.expires || null });
    return currentValue;
>>
    With no entry under [key] the condition reads [item.expires] of
    [undefined] and throws a [TypeError]. *)
Definition incr (now : Z) (key : string) (st : gmap string Item)
    : outcome number * gmap string Item :=
  match st !! key with
  | None => (Thrown, st)
  | Some item =>
      let currentValue :=
        if negb (truthy (item_expires item))
           || bool_decide (now ≤ default 0 (item_expires item))
        then number_succ (parseInt (item_value item))
        else Int 1 in
      (Returned currentValue,
       <[key := {| item_value := number_toString currentValue;
                   item_expires := if truthy (item_expires item)
                                   then item_expires item else None |}]> st)
  end.
End defs.
End MockRedisClient.

(** *** The Redis server behind the real client

    The commands the client sends, after the Redis command reference; an
    entry past its expiry time is gone. *)
Module RedisServer.

Definition live (now : Z) (item : Item) : bool :=
  match item_expires item with
  | Some e => bool_decide (now < e)
  | None => true
  end.

Definition find (now : Z) (key : string) (st : gmap string Item) : option Item :=
  item ← st !! key; if live now item then Some item else None.

Definition GET (now : Z) (key : string) (st : gmap string Item) : option string :=
  item_value <$> find now key st.

Definition SETEX (now : Z) (key : string) (seconds : Z) (value : string)
    (st : gmap string Item) : gmap string Item :=
  <[key := {| item_value := value; item_expires := Some (now + seconds * 1000) |}]> st.

(** [SET key value]: the entry has no expiry. *)
Definition SET (key value : string) (st : gmap string Item) : gmap string Item :=
  <[key := {| item_value := value; item_expires := None |}]> st.

Definition DEL (now : Z) (key : string) (st : gmap string Item) : Z * gmap string Item :=
  (if bool_decide (is_Some (find now key st)) then 1 else 0, delete key st).

Definition EXPIRE (now : Z) (key : string) (seconds : Z) (st : gmap string Item)
    : Z * gmap string Item :=
  match find now key st with
  | Some item =>
      (1, <[key := {| item_value := item_value item;
                      item_expires := Some (now + seconds * 1000) |}]> st)
  | None => (0, st)
  end.

(** The whole of [s] as a decimal integer. *)
Definition integer_of (s : string) : option Z :=
  match JsonFragment.read_int s with
  | Some (n, "") => Some n
  | _ => None
  end.

(** [INCR]: an error ([Thrown]) when the value is not an integer. *)
Definition INCR (now : Z) (key : string) (st : gmap string Item) : outcome Z * gmap string Item :=
  match find now key st with
  | None =>
      (Returned 1, <[key := {| item_value := "1"; item_expires := None |}]> st)
  | Some item =>
      match integer_of (item_value item) with
      | Some n =>
          (Returned (n + 1),
           <[key := {| item_value := pretty (n + 1);
                       item_expires := item_expires item |}]> st)
      | None => (Thrown, st)
      end
  end.
End RedisServer.

(** *** [class RedisClient] (lines 89-388)

    The client after its initial [connect()]: it talks either to the server
    or, once [useMock] is set, to a [MockRedisClient].  [faults] tells, for
    each command sent to the server in turn, whether the connection fails
    ([true]); an exhausted list means no failure. *)
Module RedisClient.
Section defs.
Context `{JSON}.

Record t := mk {
  useMock : bool;
  mock : gmap string Item;
  server : gmap string Item;
  faults : list bool
}.

Definition with_mock (m : gmap string Item) (c : t) : t :=
  {| useMock := useMock c; mock := m; server := server c; faults := faults c |}.
Definition with_server (sv : gmap string Item) (c : t) : t :=
  {| useMock := useMock c; mock := mock c; server := sv; faults := faults c |}.

(** What a command on one key leaves of another key [key']: the server
    keeps its entry, the mock keeps it or has lost it (a fallback starts
    from an empty mock). *)
Definition frame (key' : string) (c c' : t) : Prop :=
  (mock c' !! key' = mock c !! key' ∨ mock c' !! key' = None)
  ∧ server c' !! key' = server c !! key'.

(** The next command reaches the server, or fails. *)
Definition next_fault (c : t) : bool * t :=
  match faults c with
  | [] => (false, c)
  | f :: fs =>
      (f, {| useMock := useMock c; mock := mock c; server := server c; faults := fs |})
  end.

(** [this.client = new MockRedisClient(); this.useMock = true] in the
    [catch] blocks. *)
Definition fallback (c : t) : t :=
  {| useMock := true; mock := ∅; server := server c; faults := faults c |}.

Definition of_null (o : option string) : JsValue :=
  match o with Some s => JStr s | None => JNull end.

(** [get(key)] (lines 201-240):
<<
    if (this.useMock) return await this.client.get(key);
    const value = await this.client.get(key);
    if (!value) return null;
    if (typeof value === 'object') return value;
    if (typeof value === 'string') {
      try { return JSON.parse(value); } catch (parseError) { return value; }
    }
    return value;
>>
    and in the [catch]: fall back to a fresh mock and read from it.  The
    server's reply is a string or [null]. *)
Definition get (now : Z) (key : string) (c : t) : JsValue * t :=
  if useMock c then
    let '(v, m) := MockRedisClient.get now key (mock c) in
    (of_null v, with_mock m c)
  else
    let '(fault, c) := next_fault c in
    if fault then
      let c := fallback c in
      let '(v, m) := MockRedisClient.get now key (mock c) in
      (of_null v, with_mock m c)
    else
      match RedisServer.GET now key (server c) with
      | None => (JNull, c)
      | Some value =>
          if negb (truthy value) then (JNull, c)
          else match JSON_parse value with
               | Some v => (v, c)
               | None => (JStr value, c)
               end
      end.

(** [setEx(key, seconds, value)] (lines 242-270), and its alias [setex] *)
Definition setEx (now : Z) (key : string) (seconds : Z) (value : JsValue)
    (c : t) : t :=
  if useMock c then
    with_mock (MockRedisClient.setEx now key seconds value (mock c)) c
  else
    let '(fault, c) := next_fault c in
    if fault then
      let c := fallback c in
      with_mock (MockRedisClient.setEx now key seconds value (mock c)) c
    else
      with_server
        (RedisServer.SETEX now key seconds
           (MockRedisClient.stringValue value) (server c)) c.

(** [set(key, value, options)] (lines 167-199); [ttl] and [EX] are
    [options.ttl] and [options.EX]:
<<
    if (this.useMock) return await this.client.set(key, value, options);
    ...
    if (options.ttl || options.EX) {
      const ttl = options.ttl || options.EX;
      return await this.client.setEx(key, ttl, stringValue);
    }
    return await this.client.set(key, stringValue);
>>
    The mock reads [options.ttl] only. *)
Definition set (now : Z) (key : string) (value : JsValue) (ttl EX : option Z)
    (c : t) : t :=
  if useMock c then
    with_mock (MockRedisClient.set now key value ttl (mock c)) c
  else
    let '(fault, c) := next_fault c in
    if fault then
      let c := fallback c in
      with_mock (MockRedisClient.set now key value ttl (mock c)) c
    else
      let stringValue := MockRedisClient.stringValue value in
      if truthy ttl || truthy EX then
        let seconds := if truthy ttl then default 0 ttl else default 0 EX in
        with_server (RedisServer.SETEX now key seconds stringValue (server c)) c
      else
        with_server (RedisServer.SET key stringValue (server c)) c.

(** [del(key)] (lines 277-298) *)
Definition del (now : Z) (key : string) (c : t) : Z * t :=
  if useMock c then
    let '(n, m) := MockRedisClient.del key (mock c) in (n, with_mock m c)
  else
    let '(fault, c) := next_fault c in
    if fault then
      let c := fallback c in
      let '(n, m) := MockRedisClient.del key (mock c) in (n, with_mock m c)
    else
      let '(n, sv) := RedisServer.DEL now key (server c) in (n, with_server sv c).

(** [expire(key, seconds)] (lines 300-321) *)
Definition expire (now : Z) (key : string) (seconds : Z) (c : t) : Z * t :=
  if useMock c then
    let '(n, m) := MockRedisClient.expire now key seconds (mock c) in
    (n, with_mock m c)
  else
    let '(fault, c) := next_fault c in
    if fault then
      let c := fallback c in
      let '(n, m) := MockRedisClient.expire now key seconds (mock c) in
      (n, with_mock m c)
    else
      let '(n, sv) := RedisServer.EXPIRE now key seconds (server c) in
      (n, with_server sv c).

(** [incr(key)] (lines 323-344):
<<
    try {
      if (this.useMock) return await this.client.incr(key);
      return await this.client.incr(key);
    } catch (error) {
      if (!this.useMock) {
        this.client = new MockRedisClient();
        this.useMock = true;
        return await this.client.incr(key);
      }
      return 1;
    }
>>
    An exception of the mock in the [try] is caught and answered by [1];
    an exception of the fresh mock inside the [catch] escapes. *)
Definition incr (now : Z) (key : string) (c : t) : outcome number * t :=
  if useMock c then
    match MockRedisClient.incr now key (mock c) with
    | (Returned n, m) => (Returned n, with_mock m c)
    | (Thrown, m) => (Returned (Int 1), with_mock m c)
    end
  else
    let '(fault, c) := next_fault c in
    let '(reply, sv) :=
      if fault then (Thrown, server c) else RedisServer.INCR now key (server c) in
    match reply with
    | Returned n => (Returned (Int n), with_server sv c)
    | Thrown =>
        let c := fallback c in
        let '(r, m) := MockRedisClient.incr now key (mock c) in
        (r, with_mock m c)
    end.
End defs.
End RedisClient.

(* ================================================================= *)
(** ** Errors *)

(** A thrown [Error]: its message and its [code] property, which
    [new Error(message)] leaves undefined. *)
Record JsError := mkError {
  err_message : string;
  err_code : option string
}.

Definition new_Error (message : string) : JsError :=
  {| err_message := message; err_code := None |}.

Inductive result (A : Type) :=
| Ok (a : A)
| Throw (e : JsError).
Arguments Ok {A} a.
Arguments Throw {A} e.

(* ================================================================= *)
(** ** The document store *)

(** The fields of the [User], [Room] and [Message] documents that the socket
    handlers read or write. *)
Record User := mkUser {
  user_name : string;
  user_email : string;
  user_profileImage : option string
}.

Record Room := mkRoom {
  room_name : string;
  room_participants : list string
}.

Record Message := mkMessage {
  msg_id : string;
  msg_room : string;
  msg_sender : option string;
  msg_content : string;
  msg_type : string;
  msg_file : option string;
  msg_aiType : option string;
  msg_timestamp : Z;
  msg_isDeleted : bool;
  msg_readers : list (string * Z)
}.

(** The collections; [next_id] numbers the documents that are created. *)
Record Database := mkDatabase {
  messages : list Message;
  rooms : gmap string Room;
  users : gmap string User;
  next_id : nat
}.

Definition with_messages (l : list Message) (db : Database) : Database :=
  {| messages := l; rooms := rooms db; users := users db; next_id := next_id db |}.
Definition with_rooms (r : gmap string Room) (db : Database) : Database :=
  {| messages := messages db; rooms := r; users := users db; next_id := next_id db |}.

(** [new Message(fields).save()]: the document gets a fresh [_id]. *)
Definition save_message (room : string) (sender : option string)
    (content type : string) (file aiType : option string) (now : Z)
    (db : Database) : Message * Database :=
  let m := {| msg_id := "m" +:+ pretty (next_id db); msg_room := room;
              msg_sender := sender; msg_content := content; msg_type := type;
              msg_file := file; msg_aiType := aiType; msg_timestamp := now;
              msg_isDeleted := false; msg_readers := [] |} in
  (m, {| messages := messages db ++ [m]; rooms := rooms db;
         users := users db; next_id := S (next_id db) |}).

(** *** Sorting

    [Array.prototype.sort] with a comparator, and the [sort] of a query: a
    stable insertion sort, [le a b] telling that [a] may come before [b]. *)
Section sorting.
Context {A : Type} (le : A → A → bool).

Fixpoint insert_sorted (x : A) (l : list A) : list A :=
  match l with
  | [] => [x]
  | y :: l' => if le x y then x :: y :: l' else y :: insert_sorted x l'
  end.

Fixpoint sort_by (l : list A) : list A :=
  match l with
  | [] => []
  | x :: l' => insert_sorted x (sort_by l')
  end.
End sorting.

(** [(a, b) => new Date(a.timestamp) - new Date(b.timestamp)] *)
Definition older_first (a b : Message) : bool :=
  bool_decide (msg_timestamp a ≤ msg_timestamp b).
(** [.sort({ timestamp: -1 })] *)
Definition newer_first (a b : Message) : bool :=
  bool_decide (msg_timestamp b ≤ msg_timestamp a).

(** *** The history query *)

(** The filter of [loadMessages]:
<<
      const query = { room: roomId, isDeleted: { $ne: true } };
      if (before) query.timestamp = { $lt: new Date(before) };
>>
      [before] is [Some t] for a date that denotes the instant [t], [None]
      when the argument is absent. *)
Definition matches (roomId : string) (before : option Z) (m : Message) : bool :=
  bool_decide (msg_room m = roomId)
  && negb (msg_isDeleted m)
  && match before with
     | Some t => bool_decide (msg_timestamp m < t)
     | None => true
     end.

(** [Message.find(query).sort({ timestamp: -1 }).limit(n)] *)
Definition find_messages (roomId : string) (before : option Z) (n : nat)
    (db : Database) : list Message :=
  take n (sort_by newer_first (filter (λ m, matches roomId before m) (messages db))).

(** What [loadMessages] returns: [{ messages, hasMore, oldestTimestamp }]. *)
Record LoadResult := mkLoadResult {
  res_messages : list Message;
  res_hasMore : bool;
  res_oldestTimestamp : option Z
}.

(** Lines 249-259: from the rows of the query to the result. *)
Definition build_result (limit : nat) (rows : list Message) : LoadResult :=
  let hasMore := bool_decide (limit < length rows)%nat in
  let resultMessages := take limit rows in
  let sortedMessages := sort_by older_first resultMessages in
  {| res_messages := sortedMessages;
     res_hasMore := hasMore;
     res_oldestTimestamp := msg_timestamp <$> head sortedMessages |}.

(** *** Documents as values

    A populated user, a message as the projection of the query returns it
    (the sender populated from [users], dates as milliseconds), a result. *)
Definition user_to_js (id : string) (u : User) : JsValue :=
  JObj [("_id", JStr id); ("name", JStr (user_name u));
        ("email", JStr (user_email u));
        ("profileImage", js_string (user_profileImage u))].

Definition populate_user (db : Database) (id : string) : JsValue :=
  match users db !! id with
  | Some u => user_to_js id u
  | None => JNull
  end.

Definition message_to_js (db : Database) (m : Message) : JsValue :=
  JObj [("_id", JStr (msg_id m));
        ("content", JStr (msg_content m));
        ("sender", match msg_sender m with
                   | Some id => populate_user db id
                   | None => JNull
                   end);
        ("type", JStr (msg_type m));
        ("timestamp", JNum (msg_timestamp m));
        ("file", js_string (msg_file m));
        ("aiType", js_string (msg_aiType m))].

Definition result_to_js (db : Database) (r : LoadResult) : JsValue :=
  JObj [("messages", JArr (message_to_js db <$> res_messages r));
        ("hasMore", JBool (res_hasMore r));
        ("oldestTimestamp", match res_oldestTimestamp r with
                            | Some t => JNum t
                            | None => JNull
                            end)].

(** *** Read receipts of a load (lines 270-288)

    [Message.updateMany({ _id: { $in: ids }, 'readers.userId': { $ne: uid } },
    { $push: { readers: { userId: uid, readAt: now } } })]. *)
Definition mark_read (uid : string) (now : Z) (ids : list string)
    (db : Database) : Database :=
  with_messages
    ((λ m, if bool_decide (msg_id m ∈ ids)
              && negb (bool_decide (uid ∈ (msg_readers m).*1))
           then {| msg_id := msg_id m; msg_room := msg_room m;
                   msg_sender := msg_sender m; msg_content := msg_content m;
                   msg_type := msg_type m; msg_file := msg_file m;
                   msg_aiType := msg_aiType m; msg_timestamp := msg_timestamp m;
                   msg_isDeleted := msg_isDeleted m;
                   msg_readers := msg_readers m ++ [(uid, now)] |}
           else m) <$> messages db) db.

(* ================================================================= *)
(** ** Constants of chat.js (lines 56-64) *)

Definition BATCH_SIZE : nat := 25.
Definition RATE_LIMIT_WINDOW : Z := 60000.
Definition RATE_LIMIT_MAX : Z := 40.
Definition LOAD_DELAY : Z := 300.
Definition MAX_RETRIES : nat := 3.
Definition MESSAGE_LOAD_TIMEOUT : Z := 8000.
Definition RETRY_DELAY : Z := 1500.

(** [socket.user], set by the authentication middleware. *)
Record SocketUser := mkSocketUser {
  su_id : string;
  su_name : string;
  su_email : string;
  su_sessionId : string;
  su_profileImage : option string
}.

(* ================================================================= *)
(** ** [loadMessages] (chat.js, lines 177-299) *)

Section loading.
Context `{JSON}.

(** [`messages:${roomId}:${before || 'latest'}:${limit}`] *)
Definition messages_cacheKey (roomId : string) (before : option Z)
    (limit : nat) : string :=
  "messages:" +:+ roomId +:+ ":"
    +:+ match before with Some t => pretty t | None => "latest" end
    +:+ ":" +:+ pretty limit.

(** Lines 192-209: what the cache branch returns, if it returns.
<<
    if (cachedResult) {
      if (typeof cachedResult === 'object') {
        return cachedResult;
      } else if (typeof cachedResult === 'string') {
        try { return JSON.parse(cachedResult); } catch (parseError) { }
      }
    }
>>  *)
Definition from_cache (cachedResult : JsValue) : option JsValue :=
  if truthy cachedResult then
    if decide (typeof cachedResult = "object") then Some cachedResult
    else match cachedResult with
         | JStr text => JSON_parse text
         | _ => None
         end
  else None.

(** [timeout] tells that the 8 s timer wins the race against the query. *)
Definition loadMessages (now : Z) (user : option SocketUser)
    (roomId : string) (before : option Z) (limit : nat) (timeout : bool)
    (redis : RedisClient.t) (db : Database)
    : result JsValue * RedisClient.t * Database :=
  let cacheKey := messages_cacheKey roomId before limit in
  let '(cachedResult, redis) := RedisClient.get now cacheKey redis in
  match from_cache cachedResult with
  | Some payload => (Ok payload, redis, db)
  | None =>
      if timeout then
        (Throw (new_Error "Message loading timed out"), redis, db)
      else
        let rows := find_messages roomId before (limit + 1) db in
        let r := build_result limit rows in
        let payload := result_to_js db r in
        let redis :=
          RedisClient.setEx now cacheKey 30 (JStr (JSON_stringify payload)) redis in
        let db :=
          match res_messages r, user with
          | _ :: _, Some u => mark_read (su_id u) now (msg_id <$> res_messages r) db
          | _, _ => db
          end in
        (Ok payload, redis, db)
  end.
End loading.

(* ================================================================= *)
(** ** [checkRateLimit] (chat.js, lines 339-379) *)

(** A value of [rateLimitCache]: [{ count, timestamp }]. *)
Record RateEntry := mkRateEntry {
  rate_count : number;
  rate_timestamp : Z
}.
#[global] Instance RateEntry_truthy : Truthy RateEntry := λ _, true.

(** [cached.count++] *)
Definition bump (e : RateEntry) : RateEntry :=
  {| rate_count := number_succ (rate_count e);
     rate_timestamp := rate_timestamp e |}.

Definition limit_error : JsError :=
  new_Error ("메시지 전송 한도를 초과했습니다. (" +:+ pretty RATE_LIMIT_MAX +:+ "개/분)").

Section rate_limit.

(** [Math.floor(now / RATE_LIMIT_WINDOW)] *)
Definition window_of (now : Z) : Z := now `div` RATE_LIMIT_WINDOW.

(** [`${userId}:${minute}`] *)
Definition rateLimitKey (userId : string) (minute : Z) : string :=
  userId +:+ ":" +:+ pretty minute.

Definition checkRateLimit (now : Z) (userId : string)
    (rateLimitCache : LimitedMap.t string RateEntry) (redis : RedisClient.t)
    : result () * LimitedMap.t string RateEntry * RedisClient.t :=
  let minute := window_of now in
  let rateLimitKey := rateLimitKey userId minute in
  let '(cached, rateLimitCache) := LimitedMap.get rateLimitKey rateLimitCache in
  match cached with
  | Some entry =>
      if number_ge (rate_count entry) RATE_LIMIT_MAX
      then (Throw limit_error, rateLimitCache, redis)
      else (Ok (), LimitedMap.mutate rateLimitKey bump rateLimitCache, redis)
  | None =>
      let key := "rate_limit:" +:+ rateLimitKey in
      let '(reply, redis) := RedisClient.incr now key redis in
      match reply with
      | Returned count =>
          let redis :=
            if number_is count 1 then (RedisClient.expire now key 60 redis).2
            else redis in
          if number_gt count RATE_LIMIT_MAX
          then (Throw limit_error, rateLimitCache, redis)
          else (Ok (),
                LimitedMap.set rateLimitKey
                  {| rate_count := count; rate_timestamp := now |} rateLimitCache,
                redis)
      | Thrown =>
          (* the [catch]: the error is not the limit error *)
          (Ok (),
           LimitedMap.set rateLimitKey
             {| rate_count := Int 1; rate_timestamp := now |} rateLimitCache,
           redis)
      end
  end.
End rate_limit.

(* ================================================================= *)
(** ** The collaborators of the authentication path *)

(** [jwt.verify(token, jwtSecret)]: it throws an error with a [name], or
    gives the payload, whose [user.id] may be missing. *)
Inductive JwtResult :=
| JwtThrows (name : string)
| JwtPayload (userId : option string).

(** [SessionService.validateSession(userId, sessionId)]:
    [{ isValid, message }]. *)
Record Validation := mkValidation {
  isValid : bool;
  validation_message : option string
}.

(** [jsonwebtoken] and [services/sessionService] are consumed through this
    interface. *)
Class AuthVerifier := {
  jwt_verify : string → JwtResult;
  validateSession : string → string → Validation
}.

(* ================================================================= *)
(** ** The state of the socket server *)

(** A value of [streamingSessions].  [handleAIResponse] sets neither
    [messageId] nor [userId]. *)
Record StreamSession := mkStreamSession {
  ss_room : string;
  ss_aiType : string;
  ss_content : string;
  ss_timestamp : Z;
  ss_lastActivity : Z;
  ss_messageId : option string;
  ss_userId : option string
}.
#[global] Instance StreamSession_truthy : Truthy StreamSession := λ _, true.

(** A connected socket of [io.sockets.sockets]. *)
Record Socket := mkSocket {
  sock_user : option SocketUser;
  sock_rooms : list string;
  sock_userAgent : string;
  sock_address : string
}.

(** A handshake whose token has been verified: the new socket, and what
    the rest of the middleware reads from it. *)
Record Handshake := mkHandshake {
  hs_socket : string;
  hs_userId : string;
  hs_sessionId : string;
  hs_userAgent : string;
  hs_address : string
}.

(** [socket.emit], [io.to(room).emit], [socket.to(room).emit]. *)
Inductive Target :=
| ToSocket (id : string)
| ToRoom (room : string)
| ToRoomExcept (room : string) (id : string).

#[global] Instance Target_eq_dec : EqDecision Target.
Proof. solve_decision. Defined.

Record Emit := mkEmit {
  emit_target : Target;
  emit_event : string;
  emit_payload : JsValue
}.

(** [waiting] holds the handshakes suspended in [handleDuplicateLogin], each
    with the existing socket it waits for: its 8 s timer is armed and its
    [disconnect] listener sits on that socket.  [outbox] is the log of what
    was emitted. *)
Record Server := mkServer {
  connectedUsers : LimitedMap.t string string;
  streamingSessions : LimitedMap.t string StreamSession;
  userRooms : LimitedMap.t string string;
  messageQueues : LimitedMap.t string Z;
  rateLimitCache : LimitedMap.t string RateEntry;
  sockets : gmap string Socket;
  waiting : list (string * Handshake);
  redis : RedisClient.t;
  db : Database;
  outbox : list Emit
}.

Definition set_connectedUsers (x : LimitedMap.t string string) (s : Server) : Server :=
  {| connectedUsers := x; streamingSessions := streamingSessions s;
     userRooms := userRooms s; messageQueues := messageQueues s;
     rateLimitCache := rateLimitCache s; sockets := sockets s;
     waiting := waiting s; redis := redis s; db := db s;
     outbox := outbox s |}.
Definition set_streamingSessions (x : LimitedMap.t string StreamSession) (s : Server) : Server :=
  {| connectedUsers := connectedUsers s; streamingSessions := x;
     userRooms := userRooms s; messageQueues := messageQueues s;
     rateLimitCache := rateLimitCache s; sockets := sockets s;
     waiting := waiting s; redis := redis s; db := db s;
     outbox := outbox s |}.
Definition set_userRooms (x : LimitedMap.t string string) (s : Server) : Server :=
  {| connectedUsers := connectedUsers s;
     streamingSessions := streamingSessions s; userRooms := x;
     messageQueues := messageQueues s; rateLimitCache := rateLimitCache s;
     sockets := sockets s; waiting := waiting s; redis := redis s;
     db := db s; outbox := outbox s |}.
Definition set_messageQueues (x : LimitedMap.t string Z) (s : Server) : Server :=
  {| connectedUsers := connectedUsers s;
     streamingSessions := streamingSessions s; userRooms := userRooms s;
     messageQueues := x; rateLimitCache := rateLimitCache s;
     sockets := sockets s; waiting := waiting s; redis := redis s;
     db := db s; outbox := outbox s |}.
Definition set_rateLimitCache (x : LimitedMap.t string RateEntry) (s : Server) : Server :=
  {| connectedUsers := connectedUsers s;
     streamingSessions := streamingSessions s; userRooms := userRooms s;
     messageQueues := messageQueues s; rateLimitCache := x;
     sockets := sockets s; waiting := waiting s; redis := redis s;
     db := db s; outbox := outbox s |}.
Definition set_sockets (x : gmap string Socket) (s : Server) : Server :=
  {| connectedUsers := connectedUsers s;
     streamingSessions := streamingSessions s; userRooms := userRooms s;
     messageQueues := messageQueues s; rateLimitCache := rateLimitCache s;
     sockets := x; waiting := waiting s; redis := redis s; db := db s;
     outbox := outbox s |}.
Definition set_waiting (x : list (string * Handshake)) (s : Server) : Server :=
  {| connectedUsers := connectedUsers s;
     streamingSessions := streamingSessions s; userRooms := userRooms s;
     messageQueues := messageQueues s; rateLimitCache := rateLimitCache s;
     sockets := sockets s; waiting := x; redis := redis s; db := db s;
     outbox := outbox s |}.
Definition set_redis (x : RedisClient.t) (s : Server) : Server :=
  {| connectedUsers := connectedUsers s;
     streamingSessions := streamingSessions s; userRooms := userRooms s;
     messageQueues := messageQueues s; rateLimitCache := rateLimitCache s;
     sockets := sockets s; waiting := waiting s; redis := x; db := db s;
     outbox := outbox s |}.
Definition set_db (x : Database) (s : Server) : Server :=
  {| connectedUsers := connectedUsers s;
     streamingSessions := streamingSessions s; userRooms := userRooms s;
     messageQueues := messageQueues s; rateLimitCache := rateLimitCache s;
     sockets := sockets s; waiting := waiting s; redis := redis s; db := x;
     outbox := outbox s |}.
Definition set_outbox (x : list Emit) (s : Server) : Server :=
  {| connectedUsers := connectedUsers s;
     streamingSessions := streamingSessions s; userRooms := userRooms s;
     messageQueues := messageQueues s; rateLimitCache := rateLimitCache s;
     sockets := sockets s; waiting := waiting s; redis := redis s;
     db := db s; outbox := x |}.

(** The server as [module.exports = function(io)] leaves it (lines 48-53),
    over a given cache and store. *)
Definition initial (redis0 : RedisClient.t) (db0 : Database) : Server :=
  {| connectedUsers := LimitedMap.create 2000;
     streamingSessions := LimitedMap.create 500;
     userRooms := LimitedMap.create 2000;
     messageQueues := LimitedMap.create 1000;
     rateLimitCache := LimitedMap.create 2000;
     sockets := ∅; waiting := []; redis := redis0; db := db0; outbox := [] |}.

Definition emit (t : Target) (event : string) (payload : JsValue) (s : Server)
    : Server :=
  set_outbox (outbox s ++ [mkEmit t event payload]) s.

(** The events [t] was sent, in order. *)
Definition received (t : Target) (s : Server) : list (string * JsValue) :=
  (λ e, (emit_event e, emit_payload e))
    <$> filter (λ e, emit_target e = t) (outbox s).

(* ================================================================= *)
(** ** Strings *)

(** [s.includes(sub)]; [s.startsWith(p)] is [String.prefix p s]. *)
Fixpoint includes (sub s : string) : bool :=
  String.prefix sub s
  || match s with
     | String _ s' => includes sub s'
     | "" => false
     end.

Fixpoint string_drop (n : nat) (s : string) : string :=
  match n, s with
  | S n', String _ s' => string_drop n' s'
  | _, _ => s
  end.

(** [\w] *)
Definition is_word_char (c : ascii) : bool :=
  let n := N_of_ascii c in
  bool_decide ((48 ≤ n ∧ n ≤ 57) ∨ (65 ≤ n ∧ n ≤ 90) ∨ (97 ≤ n ∧ n ≤ 122) ∨ n = 95)%N.

(** [name] followed by [\b] at the head of [s]. *)
Definition word_at (name s : string) : bool :=
  String.prefix name s
  && match string_drop (String.length name) s with
     | String c _ => negb (is_word_char c)
     | "" => true
     end.

(** The matches of [/@(wayneAI|consultingAI)\b/g] in [content], in order
    (lines 741-748). *)
Fixpoint aiMentions (content : string) : list string :=
  match content with
  | "" => []
  | String _ rest =>
      (if word_at "@wayneAI" content then ["wayneAI"]
       else if word_at "@consultingAI" content then ["consultingAI"]
       else [])
      ++ aiMentions rest
  end.

(* ================================================================= *)
(** ** The handlers of chat.js *)

(** The reason socket.io gives the [disconnect] listeners when the server
    calls [socket.disconnect()]; a client that calls it gives
    ["client namespace disconnect"]. *)
Definition server_namespace_disconnect : string := "server namespace disconnect".

Section handlers.
Context `{JSON} `{AuthVerifier}.

(** [next(new Error(message))]: the handshake is refused. *)
Definition reject (c : string) (message : string) (s : Server) : Server :=
  emit (ToSocket c) "connect_error" (JObj [("message", JStr message)]) s.

(** [io.on('connection')], lines 522-542: the socket joins
    [io.sockets.sockets] and is registered. *)
Definition on_connection (h : Handshake) (user : SocketUser) (s : Server)
    : Server :=
  let c := hs_socket h in
  let s := set_sockets
             (<[c := {| sock_user := Some user; sock_rooms := [];
                        sock_userAgent := hs_userAgent h;
                        sock_address := hs_address h |}]> (sockets s)) s in
  let '(previousSocketId, cu) := LimitedMap.get (su_id user) (connectedUsers s) in
  set_connectedUsers (LimitedMap.set (su_id user) c cu) s.

Definition string_field (name : string) (v : JsValue) : string :=
  match js_field name v with
  | Some (JStr x) => x
  | _ => ""
  end.

(** Lines 491-497: [socket.user] from the user object; [user._id.toString()]
    throws when [_id] is missing. *)
Definition socket_user (user : JsValue) (sessionId : string)
    : option SocketUser :=
  match js_field "_id" user with
  | None | Some JNull => None
  | Some id =>
      Some {| su_id := String_of id;
              su_name := string_field "name" user;
              su_email := string_field "email" user;
              su_sessionId := sessionId;
              su_profileImage :=
                match js_field "profileImage" user with
                | Some (JStr x) => Some x
                | _ => None
                end |}
  end.

(** The [socket.user] of a user document of the store. *)
Definition resolved_user (uid sessionId : string) (doc : User) : SocketUser :=
  {| su_id := uid; su_name := user_name doc; su_email := user_email doc;
     su_sessionId := sessionId; su_profileImage := user_profileImage doc |}.

(** The middleware after the duplicate-login check (lines 442-504, and the
    [catch] of lines 506-518 for the [TypeError]). *)
Definition authenticate (now : Z) (h : Handshake) (s : Server) : Server :=
  let c := hs_socket h in
  let uid := hs_userId h in
  let validationResult := validateSession uid (hs_sessionId h) in
  if negb (isValid validationResult) then
    reject c (match validation_message validationResult with
              | Some m => if truthy m then m else "Invalid session"
              | None => "Invalid session"
              end) s
  else
    let userCacheKey := "user:" +:+ uid in
    let '(cachedUser, r) := RedisClient.get now userCacheKey (redis s) in
    let s := set_redis r s in
    let finish (user : JsValue) (s : Server) :=
      match socket_user user (hs_sessionId h) with
      | Some su => on_connection h su s
      | None => reject c "Authentication failed" s
      end in
    match from_cache cachedUser with
    | Some user =>
        if truthy user then finish user s
        else
          match users (db s) !! uid with
          | None => reject c "User not found" s
          | Some doc =>
              let user := user_to_js uid doc in
              finish user
                (set_redis (RedisClient.setEx now userCacheKey 300
                              (JStr (JSON_stringify user)) (redis s)) s)
          end
    | None =>
        match users (db s) !! uid with
        | None => reject c "User not found" s
        | Some doc =>
            let user := user_to_js uid doc in
            finish user
              (set_redis (RedisClient.setEx now userCacheKey 300
                            (JStr (JSON_stringify user)) (redis s)) s)
        end
    end.


(** [room.participants] populated: the users that exist. *)
Definition populate_participants (d : Database) (ids : list string) : JsValue :=
  JArr (omap (λ id, user_to_js id <$> users d !! id) ids).

(** A saved message as it is emitted. *)
Definition message_doc_js (d : Database) (m : Message) : JsValue :=
  JObj [("_id", JStr (msg_id m));
        ("room", JStr (msg_room m));
        ("content", JStr (msg_content m));
        ("sender", match msg_sender m with
                   | Some id => populate_user d id
                   | None => JNull
                   end);
        ("type", JStr (msg_type m));
        ("timestamp", JNum (msg_timestamp m));
        ("file", js_string (msg_file m));
        ("aiType", js_string (msg_aiType m))].

(** [socket.on('disconnect')], lines 975-1055, for the socket [c] whose
    record was [sock]. *)
Definition on_disconnect (now : Z) (c : string) (sock : Socket)
    (reason : string) (s : Server) : Server :=
  match sock_user sock with
  | None => s
  | Some user =>
      let userId := su_id user in
      let userName := su_name user in
      (* lines 983-985 *)
      let '(current, cu) := LimitedMap.get userId (connectedUsers s) in
      let cu := if decide (current = Some c) then LimitedMap.delete userId cu else cu in
      let s := set_connectedUsers cu s in
      (* lines 987-990 *)
      let '(roomId, ur) := LimitedMap.get userId (userRooms s) in
      let ur := if truthy roomId then LimitedMap.delete userId ur else ur in
      let s := set_userRooms ur s in
      (* lines 993-997 *)
      let userQueues :=
        filter (λ key, includes userId key = true) (LimitedMap.keys (messageQueues s)) in
      let s := set_messageQueues
                 (foldl (λ m key, LimitedMap.delete key m) (messageQueues s) userQueues) s in
      (* lines 1000-1004 *)
      let gone :=
        (filter (λ e, ss_userId e.2 = Some userId)
           (LimitedMap.entries (streamingSessions s))).*1 in
      let s := set_streamingSessions
                 (foldl (λ m key, LimitedMap.delete key m) (streamingSessions s) gone) s in
      (* lines 1007-1011 *)
      let rateLimitKeys :=
        filter (λ key, String.prefix userId key = true)
          (LimitedMap.keys (rateLimitCache s)) in
      let s := set_rateLimitCache
                 (foldl (λ m key, LimitedMap.delete key m) (rateLimitCache s) rateLimitKeys) s in
      (* lines 1014-1038 *)
      match roomId with
      | Some roomId =>
          if truthy roomId
             && negb (bool_decide (reason = "client namespace disconnect"))
             && negb (bool_decide (reason = "duplicate_login"))
          then
            let '(savedMessage, d) :=
              save_message roomId None (userName +:+ "님이 연결이 끊어졌습니다.")
                "system" None None now (db s) in
            match rooms d !! roomId with
            | Some room =>
                let room' :=
                  {| room_name := room_name room;
                     room_participants :=
                       filter (λ p, p ≠ userId) (room_participants room) |} in
                let d := with_rooms (<[roomId := room']> (rooms d)) d in
                let s := set_db d s in
                let s := emit (ToRoom roomId) "message" (message_doc_js d savedMessage) s in
                emit (ToRoom roomId) "participantsUpdate"
                  (populate_participants d (room_participants room')) s
            | None => set_db d s
            end
          else s
      | None => s
      end
  end.

(** The socket [c] disconnects with [reason]: it leaves
    [io.sockets.sockets], its [disconnect] listeners run.  The listener of
    chat.js comes first; then those [handleDuplicateLogin] put on it
    (lines 407-410), which clear their timer and let their handshake go
    on. *)
Definition socket_disconnect (now : Z) (c : string) (reason : string)
    (s : Server) : Server :=
  match sockets s !! c with
  | None => s
  | Some sock =>
      let s := set_sockets (delete c (sockets s)) s in
      let s := on_disconnect now c sock reason s in
      let resumed := filter (λ w, w.1 = c) (waiting s) in
      let s := set_waiting (filter (λ w, w.1 ≠ c) (waiting s)) s in
      foldl (λ s w, authenticate now w.2 s) s resumed
  end.

(** [handleDuplicateLogin(existingSocket, newSocket)], lines 382-416, up
    to the promise it returns: the warning is sent, the timer armed and the
    listener installed. *)
Definition handleDuplicateLogin (now : Z) (existing : string) (h : Handshake)
    (s : Server) : Server :=
  let s := emit (ToSocket existing) "duplicate_login"
             (JObj [("type", JStr "new_login_attempt");
                    ("deviceInfo", JStr (hs_userAgent h));
                    ("ipAddress", JStr (hs_address h));
                    ("timestamp", JNum now)]) s in
  set_waiting (waiting s ++ [(existing, h)]) s.

(** The timer of [handleDuplicateLogin] fires for the handshake of
    [newSocket], [DUPLICATE_LOGIN_TIMEOUT] after it was armed (lines
    392-404).  A cleared timer does nothing. *)
Definition preemption_timeout (now : Z) (newSocket : string) (s : Server)
    : Server :=
  match list_find (λ w, hs_socket w.2 = newSocket) (waiting s) with
  | None => s
  | Some (_, (existing, h)) =>
      let s := emit (ToSocket existing) "session_ended"
                 (JObj [("reason", JStr "duplicate_login");
                        ("message", JStr "다른 기기에서 로그인하여 현재 세션이 종료되었습니다.")]) s in
      let s := socket_disconnect now existing server_namespace_disconnect s in
      (* [finally { resolve(); }] *)
      match list_find (λ w, hs_socket w.2 = newSocket) (waiting s) with
      | Some _ =>
          authenticate now h
            (set_waiting (filter (λ w, hs_socket w.2 ≠ newSocket) (waiting s)) s)
      | None => s
      end
  end.

(** [io.use], lines 419-441 and the [catch] of lines 506-518.  [token] and
    [sessionId] are [socket.handshake.auth]. *)
Definition middleware (now : Z) (c : string) (token sessionId : option string)
    (userAgent address : string) (s : Server) : Server :=
  match token, sessionId with
  | Some token, Some sessionId =>
      if negb (truthy token) || negb (truthy sessionId)
      then reject c "Authentication error" s
      else
        match jwt_verify token with
        | JwtThrows name =>
            reject c (if decide (name = "TokenExpiredError") then "Token expired"
                      else if decide (name = "JsonWebTokenError") then "Invalid token"
                      else "Authentication failed") s
        | JwtPayload None => reject c "Invalid token" s
        | JwtPayload (Some uid) =>
            if negb (truthy uid) then reject c "Invalid token" s
            else
              let h := {| hs_socket := c; hs_userId := uid;
                          hs_sessionId := sessionId;
                          hs_userAgent := userAgent; hs_address := address |} in
              let '(existingSocketId, cu) := LimitedMap.get uid (connectedUsers s) in
              let s := set_connectedUsers cu s in
              match existingSocketId with
              | Some existing =>
                  if truthy existing && negb (bool_decide (existing = c)) then
                    match sockets s !! existing with
                    | Some _ => handleDuplicateLogin now existing h s
                    | None => authenticate now h s
                    end
                  else authenticate now h s
              | None => authenticate now h s
              end
        end
  | _, _ => reject c "Authentication error" s
  end.

(** *** [socket.on('joinRoom')], lines 621-724 *)

Definition set_socket_rooms (c : string) (f : list string → list string)
    (s : Server) : Server :=
  set_sockets
    (alter (λ k, {| sock_user := sock_user k; sock_rooms := f (sock_rooms k);
                    sock_userAgent := sock_userAgent k;
                    sock_address := sock_address k |}) c (sockets s)) s.

(** Lines 687-696 *)
Definition activeStreams (roomId : string) (s : Server) : JsValue :=
  JArr ((λ session,
           JObj [("_id", js_string (ss_messageId session));
                 ("type", JStr "ai");
                 ("aiType", JStr (ss_aiType session));
                 ("content", JStr (ss_content session));
                 ("timestamp", JNum (ss_timestamp session));
                 ("isStreaming", JBool true)])
        <$> filter (λ session, ss_room session = roomId)
              (LimitedMap.values (streamingSessions s))).

(** A field of an object literal: [undefined] leaves the field out. *)
Definition field_of (name : string) (o : option JsValue)
    : list (string * JsValue) :=
  match o with Some v => [(name, v)] | None => [] end.

Definition joinRoomError (c : string) (e : JsError) (s : Server) : Server :=
  emit (ToSocket c) "joinRoomError"
    (JObj [("message",
            JStr (if truthy (err_message e) then err_message e
                  else "채팅방 입장에 실패했습니다."))]) s.

(** [timeout] is the [timeout] of the [loadMessages] call. *)
Definition on_joinRoom (now : Z) (c : string) (roomId : string)
    (timeout : bool) (s : Server) : Server :=
  match sockets s !! c with
  | None => s
  | Some sock =>
      match sock_user sock with
      | None => joinRoomError c (new_Error "Unauthorized") s
      | Some user =>
          let uid := su_id user in
          (* lines 628-636 *)
          let '(currentRoom, ur) := LimitedMap.get uid (userRooms s) in
          let s := set_userRooms ur s in
          if decide (currentRoom = Some roomId) then
            emit (ToSocket c) "joinRoomSuccess" (JObj [("roomId", JStr roomId)]) s
          else
            (* lines 639-652 *)
            let s :=
              match currentRoom with
              | Some previous =>
                  if truthy previous then
                    let s := set_socket_rooms c (filter (λ r, r ≠ previous)) s in
                    let s := set_userRooms (LimitedMap.delete uid (userRooms s)) s in
                    emit (ToRoomExcept previous c) "userLeft"
                      (JObj [("userId", JStr uid); ("name", JStr (su_name user))]) s
                  else s
              | None => s
              end in
            (* lines 655-663 *)
            match rooms (db s) !! roomId with
            | None => joinRoomError c (new_Error "채팅방을 찾을 수 없습니다.") s
            | Some room =>
                let room :=
                  {| room_name := room_name room;
                     room_participants :=
                       if bool_decide (uid ∈ room_participants room)
                       then room_participants room
                       else room_participants room ++ [uid] |} in
                let s := set_db (with_rooms (<[roomId := room]> (rooms (db s))) (db s)) s in
                (* lines 665-666 *)
                let s := set_socket_rooms c (λ l, l ++ [roomId]) s in
                let s := set_userRooms (LimitedMap.set uid roomId (userRooms s)) s in
                (* lines 669-680 *)
                let '(savedMessage, d) :=
                  save_message roomId None (su_name user +:+ "님이 입장하였습니다.")
                    "system" None None now (db s) in
                let s := set_db d s in
                let s := emit (ToRoom roomId) "message" (message_doc_js d savedMessage) s in
                (* line 683 *)
                let '(loaded, r, d) :=
                  loadMessages now (Some user) roomId None BATCH_SIZE timeout
                    (redis s) (db s) in
                let s := set_db d (set_redis r s) in
                match loaded with
                | Throw e => joinRoomError c e s
                | Ok messageLoadResult =>
                    let s :=
                      emit (ToSocket c) "joinRoomSuccess"
                        (JObj ([("roomId", JStr roomId);
                                ("participants",
                                 populate_participants (db s) (room_participants room))]
                               ++ field_of "messages" (js_field "messages" messageLoadResult)
                               ++ field_of "hasMore" (js_field "hasMore" messageLoadResult)
                               ++ field_of "oldestTimestamp"
                                    (js_field "oldestTimestamp" messageLoadResult)
                               ++ [("activeStreams", activeStreams roomId s)])) s in
                    emit (ToRoom roomId) "participantsUpdate"
                      (populate_participants (db s) (room_participants room)) s
                end
            end
      end
  end.

(** *** [handleAIResponse], lines 1067-1156 *)

(** Lines 1074-1090: the session is created and announced; the generator
    is then called with the three callbacks below. *)
Definition AI_sessionId (roomId aiType : string) (now : Z) : string :=
  roomId +:+ "_" +:+ aiType +:+ "_" +:+ pretty now.

Definition handleAIResponse_start (now : Z) (roomId aiType : string)
    (s : Server) : Server :=
  let sessionId := AI_sessionId roomId aiType now in
  let s := set_streamingSessions
             (LimitedMap.set sessionId
                {| ss_room := roomId; ss_aiType := aiType; ss_content := "";
                   ss_timestamp := now; ss_lastActivity := now;
                   ss_messageId := None; ss_userId := None |}
                (streamingSessions s)) s in
  emit (ToRoom roomId) "aiMessageStart"
    (JObj [("sessionId", JStr sessionId); ("aiType", JStr aiType);
           ("timestamp", JNum now)]) s.

(** [onChunk], lines 1094-1106 *)
Definition onChunk (now : Z) (roomId sessionId chunk : string) (s : Server)
    : Server :=
  let '(session, ss) := LimitedMap.get sessionId (streamingSessions s) in
  let s := set_streamingSessions ss s in
  match session with
  | Some session =>
      let fullContent := ss_content session +:+ chunk in
      let s := set_streamingSessions
                 (LimitedMap.mutate sessionId
                    (λ x, {| ss_room := ss_room x; ss_aiType := ss_aiType x;
                             ss_content := fullContent;
                             ss_timestamp := ss_timestamp x;
                             ss_lastActivity := now;
                             ss_messageId := ss_messageId x;
                             ss_userId := ss_userId x |})
                    (streamingSessions s)) s in
      emit (ToRoom roomId) "aiMessageChunk"
        (JObj [("sessionId", JStr sessionId); ("chunk", JStr chunk);
               ("fullContent", JStr fullContent)]) s
  | None => s
  end.

(** [onComplete], lines 1107-1140, is asynchronous: it builds the message,
    awaits [aiMessage.save()], awaits [aiMessage.populate()], and only then
    emits and removes the session.  Whatever is called while one of its
    awaits is under way runs before what follows that await. *)

(** A call of [onComplete] under way: its message is being saved, or is
    saved and is being populated. *)
Inductive Completion :=
| Saving (timestamp : Z) (finalContent : string)
| Populating (aiMessage : Message).

(** The call itself, lines 1109-1117: [new Message({ ..., timestamp: new
    Date() })], and [save()] begins. *)
Definition onComplete (now : Z) (finalContent : string)
    (pending : list Completion) : list Completion :=
  pending ++ [Saving now finalContent].

(** The await of the [i]-th call under way settles; [ok] tells that it
    resolves.  A rejection goes to the [catch] of lines 1135-1138. *)
Definition onComplete_settle (roomId aiType sessionId : string) (i : nat)
    (ok : bool) (st : list Completion * Server) : list Completion * Server :=
  let '(pending, s) := st in
  match pending !! i with
  | None => st
  | Some (Saving timestamp finalContent) =>
      if ok then
        let '(aiMessage, d) :=
          save_message roomId None finalContent "ai" None (Some aiType)
            timestamp (db s) in
        (<[i := Populating aiMessage]> pending, set_db d s)
      else
        (delete i pending,
         set_streamingSessions
           (LimitedMap.delete sessionId (streamingSessions s)) s)
  | Some (Populating aiMessage) =>
      if ok then
        let s := emit (ToRoom roomId) "aiMessageComplete"
                   (JObj [("sessionId", JStr sessionId);
                          ("message", message_doc_js (db s) aiMessage)]) s in
        (delete i pending,
         set_streamingSessions
           (LimitedMap.delete sessionId (streamingSessions s)) s)
      else
        (delete i pending,
         set_streamingSessions
           (LimitedMap.delete sessionId (streamingSessions s)) s)
  end.

(** [onError], lines 1141-1150 *)
Definition onError (roomId sessionId : string) (s : Server) : Server :=
  let s := emit (ToRoom roomId) "aiMessageError"
             (JObj [("sessionId", JStr sessionId);
                    ("error", JStr "AI 응답 생성 중 오류가 발생했습니다.")]) s in
  set_streamingSessions (LimitedMap.delete sessionId (streamingSessions s)) s.

(** What happens during the call of the generator, at a given time: it
    invokes one of the three callbacks, or an await of an [onComplete] under
    way settles, or something else happens to the server meanwhile (another
    handler runs, another answer begins). *)
Inductive Callback :=
| Chunk (chunk : string)
| Complete (finalContent : string)
| Error
| Settled (i : nat) (ok : bool)
| Meanwhile (f : Server → Server).

Definition callback (roomId aiType sessionId : string)
    (st : list Completion * Server) (cb : Z * Callback)
    : list Completion * Server :=
  match cb.2 with
  | Chunk chunk => (st.1, onChunk cb.1 roomId sessionId chunk st.2)
  | Complete finalContent => (onComplete cb.1 finalContent st.1, st.2)
  | Error => (st.1, onError roomId sessionId st.2)
  | Settled i ok => onComplete_settle roomId aiType sessionId i ok st
  | Meanwhile f => (st.1, f st.2)
  end.

(** [handleAIResponse(io, roomId, aiType, query)], for a configured
    [aiService], with what happens during the call of the generator, in
    order. *)
Definition handleAIResponse (now : Z) (roomId aiType : string)
    (callbacks : list (Z * Callback)) (s : Server) : Server :=
  (foldl (callback roomId aiType (AI_sessionId roomId aiType now))
     ([], handleAIResponse_start now roomId aiType s) callbacks).2.

(** *** [socket.on('chatMessage')], lines 727-799 *)

(** The [catch] of lines 792-798. *)
Definition chatMessage_error (c : string) (e : JsError) (s : Server) : Server :=
  emit (ToSocket c) "error"
    (JObj [("code", JStr (match err_code e with
                          | Some code => if truthy code then code else "MESSAGE_ERROR"
                          | None => "MESSAGE_ERROR"
                          end));
           ("message", JStr (if truthy (err_message e) then err_message e
                             else "메시지 전송 중 오류가 발생했습니다."))]) s.

(** [type] is [None] when the client gives none; [file] and [fileData_id]
    are [file] and [fileData?._id].  The generator calls that the mentions
    start are [handleAIResponse_start]: their callbacks come later. *)
Definition on_chatMessage (now : Z) (c : string) (room content : string)
    (type file fileData_id : option string) (s : Server) : Server :=
  match sockets s !! c with
  | None => s
  | Some sock =>
      match sock_user sock with
      | None => chatMessage_error c (new_Error "Unauthorized") s
      | Some user =>
          if negb (truthy room) || (negb (truthy content) && negb (truthy file))
          then chatMessage_error c (new_Error "메시지 내용이 필요합니다.") s
          else
            let '(checked, rl, r) :=
              checkRateLimit now (su_id user) (rateLimitCache s) (redis s) in
            let s := set_redis r (set_rateLimitCache rl s) in
            match checked with
            | Throw e => chatMessage_error c e s
            | Ok _ =>
                let mentions := if truthy content then aiMentions content else [] in
                let '(newMessage, d) :=
                  save_message room (Some (su_id user)) content
                    (default "user" type)
                    (if truthy fileData_id then fileData_id
                     else if truthy file then file else None)
                    None now (db s) in
                let s := set_db d s in
                let s := emit (ToRoom room) "message" (message_doc_js d newMessage) s in
                foldl (λ s ai, handleAIResponse_start now room ai s) s mentions
            end
      end
  end.

(** *** [socket.on('force_login')], lines 889-919 *)
Definition on_force_login (now : Z) (c : string) (token : string)
    (s : Server) : Server :=
  match sockets s !! c with
  | None => s
  | Some sock =>
      match sock_user sock with
      | None => s
      | Some user =>
          let failure :=
            emit (ToSocket c) "error"
              (JObj [("message", JStr "세션 종료 중 오류가 발생했습니다.")]) s in
          match jwt_verify token with
          | JwtThrows _ => failure
          | JwtPayload None => failure
          | JwtPayload (Some uid) =>
              if negb (truthy uid) || negb (bool_decide (uid = su_id user))
              then failure
              else
                let s := emit (ToSocket c) "session_ended"
                           (JObj [("reason", JStr "force_logout");
                                  ("message", JStr "다른 기기에서 로그인하여 현재 세션이 종료되었습니다.")]) s in
                socket_disconnect now c server_namespace_disconnect s
          end
      end
  end.
End handlers.

(* ================================================================= *)
(** ** The other handlers of a connection *)

(** A value of [messageLoadRetries]: [{ count, lastAttempt }]. *)
Record RetryEntry := mkRetryEntry {
  retry_count : Z;
  retry_lastAttempt : Z
}.
#[global] Instance RetryEntry_truthy : Truthy RetryEntry := λ _, true.

(** [`${roomId}:${socket.user.id}:${before || 'initial'}`]: the key of
    [messageLoadRetries] and of [messageQueues]. *)
Definition loadKey (roomId userId : string) (before : option Z) : string :=
  roomId +:+ ":" +:+ userId +:+ ":"
    +:+ match before with Some t => pretty t | None => "initial" end.

(** [Math.min(RETRY_DELAY * Math.pow(1.5, retryCount), 5000)]: 1500, 2250,
    3375, and 5000 from the third retry on. *)
Definition retry_delay (retryCount : nat) : Z :=
  Z.min (RETRY_DELAY * 3 ^ Z.of_nat retryCount `div` 2 ^ Z.of_nat retryCount) 5000.

(** [`room_access:${roomId}:${socket.user.id}`] *)
Definition roomCacheKey (roomId userId : string) : string :=
  "room_access:" +:+ roomId +:+ ":" +:+ userId.

Section more_handlers.
Context `{JSON}.

(** *** [loadMessagesWithRetry] (lines 302-336)

    [left] is [MAX_RETRIES - retryCount], so that [retryCount < MAX_RETRIES]
    reads [left ≠ 0].  [timeouts] tells of each attempt in turn whether its
    8 s timer wins (none does once the list is exhausted); an attempt that
    times out ends [MESSAGE_LOAD_TIMEOUT] after it began, and the next one
    begins [delay] later. *)
Fixpoint loadMessagesWithRetry_from (left : nat) (now : Z) (user : SocketUser)
    (roomId : string) (before : option Z) (timeouts : list bool)
    (retries : LimitedMap.t string RetryEntry)
    (redis : RedisClient.t) (db : Database)
    : result JsValue * LimitedMap.t string RetryEntry * RedisClient.t * Database :=
  let retryCount := (MAX_RETRIES - left)%nat in
  let retryKey := loadKey roomId (su_id user) before in
  let '(loaded, redis, db) :=
    loadMessages now (Some user) roomId before BATCH_SIZE
      (default false (head timeouts)) redis db in
  match loaded with
  | Ok result => (Ok result, LimitedMap.delete retryKey retries, redis, db)
  | Throw error =>
      match left with
      | S left' =>
          let failed := now + MESSAGE_LOAD_TIMEOUT in
          let delay := retry_delay retryCount in
          let retries :=
            LimitedMap.set retryKey
              {| retry_count := Z.of_nat retryCount + 1;
                 retry_lastAttempt := failed |} retries in
          loadMessagesWithRetry_from left' (failed + delay) user roomId before
            (tail timeouts) retries redis db
      | O => (Throw error, LimitedMap.delete retryKey retries, redis, db)
      end
  end.

Definition loadMessagesWithRetry :=
  loadMessagesWithRetry_from MAX_RETRIES.

(** *** [socket.on('fetchPreviousMessages')], lines 545-618

    The state is the server and [messageLoadRetries].  An event sent without
    argument carries [JNull].  Line 546 reads [socket.user.id] before the
    [try]: without [socket.user] the handler throws there and sends
    nothing.  The [finally] arms the timer of [fetch_release] on every way
    out of the [try], the early return included. *)
Definition load_error (c : string) (e : JsError) (s : Server) : Server :=
  emit (ToSocket c) "error"
    (JObj [("type", JStr "LOAD_ERROR");
           ("message",
            JStr (if truthy (err_message e) then err_message e
                  else "이전 메시지를 불러오는 중 오류가 발생했습니다."))]) s.

Definition on_fetchPreviousMessages (now : Z) (c roomId : string)
    (before : option Z) (timeouts : list bool)
    (st : LimitedMap.t string RetryEntry * Server)
    : LimitedMap.t string RetryEntry * Server :=
  let '(retries, s) := st in
  match sockets s !! c with
  | None => st
  | Some sock =>
      match sock_user sock with
      | None => st
      | Some user =>
          let queueKey := loadKey roomId (su_id user) before in
          (* lines 554-561 *)
          if LimitedMap.has queueKey (messageQueues s) then st
          else
            (* lines 564-589 *)
            let key := roomCacheKey roomId (su_id user) in
            let '(hasAccess, r) := RedisClient.get now key (redis s) in
            let s := set_redis r s in
            let granted :=
              if truthy hasAccess then Some s
              else
                match rooms (db s) !! roomId with
                | Some room =>
                    if bool_decide (su_id user ∈ room_participants room)
                    then Some (set_redis
                                 (RedisClient.setEx now key 300 (JStr "true") (redis s)) s)
                    else None
                | None => None
                end in
            match granted with
            | None =>
                (retries, load_error c (new_Error "채팅방 접근 권한이 없습니다.") s)
            | Some s =>
                (* lines 592-604 *)
                let s := set_messageQueues
                           (LimitedMap.set queueKey now (messageQueues s)) s in
                let s := emit (ToSocket c) "messageLoadStart" JNull s in
                let '(loaded, retries, r, d) :=
                  loadMessagesWithRetry now user roomId before timeouts retries
                    (redis s) (db s) in
                let s := set_db d (set_redis r s) in
                match loaded with
                | Ok result =>
                    (retries, emit (ToSocket c) "previousMessagesLoaded" result s)
                | Throw e => (retries, load_error c e s)
                end
            end
      end
  end.

End more_handlers.

(** *** [socket.on('markMessagesAsRead')], lines 802-846

    [messageIds] is [None] when the argument is not an array.  Each
    [updateOne] pushes the reader on the message of that [_id] in [roomId]
    that the user has not read. *)
Definition mark_read_in (roomId uid : string) (now : Z) (ids : list string)
    (db : Database) : Database :=
  with_messages
    ((λ m, if bool_decide (msg_id m ∈ ids)
              && bool_decide (msg_room m = roomId)
              && negb (bool_decide (uid ∈ (msg_readers m).*1))
           then {| msg_id := msg_id m; msg_room := msg_room m;
                   msg_sender := msg_sender m; msg_content := msg_content m;
                   msg_type := msg_type m; msg_file := msg_file m;
                   msg_aiType := msg_aiType m; msg_timestamp := msg_timestamp m;
                   msg_isDeleted := msg_isDeleted m;
                   msg_readers := msg_readers m ++ [(uid, now)] |}
           else m) <$> messages db) db.

Definition on_markMessagesAsRead (now : Z) (c roomId : string)
    (messageIds : option (list string)) (s : Server) : Server :=
  match sockets s !! c with
  | None => s
  | Some sock =>
      match sock_user sock, messageIds with
      | Some user, Some (id :: ids) =>
          let s := set_db (mark_read_in roomId (su_id user) now (id :: ids) (db s)) s in
          emit (ToRoomExcept roomId c) "messagesRead"
            (JObj [("userId", JStr (su_id user));
                   ("messageIds", JArr (JStr <$> id :: ids))]) s
      | _, _ => s
      end
  end.

(* ================================================================= *)
(** ** The janitor (lines 91-164)

    Each loop deletes, among the entries it walks, those its test selects.
    [heapUsedMB] is [Math.round(memUsage.heapUsed / 1024 / 1024)]. *)
Definition delete_all {V} `{Truthy V} (keys : list string)
    (m : LimitedMap.t string V) : LimitedMap.t string V :=
  foldl (λ m key, LimitedMap.delete key m) m keys.

Definition memoryCleanup (now heapUsedMB : Z)
    (st : LimitedMap.t string RetryEntry * Server)
    : LimitedMap.t string RetryEntry * Server :=
  let '(retries, s) := st in
  (* 1. lines 97-102 *)
  let idle :=
    (filter (λ e, 30 * 60 * 1000 < now - ss_lastActivity e.2)
       (LimitedMap.entries (streamingSessions s))).*1 in
  let s := set_streamingSessions (delete_all idle (streamingSessions s)) s in
  (* 2. lines 105-110 *)
  let old :=
    (filter (λ e, 2 * 60 * 1000 < now - rate_timestamp e.2)
       (LimitedMap.entries (rateLimitCache s))).*1 in
  let s := set_rateLimitCache (delete_all old (rateLimitCache s)) s in
  (* 3. lines 113-120 *)
  let gone :=
    (filter (λ e, sockets s !! e.2 = None)
       (LimitedMap.entries (connectedUsers s))).*1 in
  let s := set_connectedUsers (delete_all gone (connectedUsers s)) s in
  let s := set_userRooms (delete_all gone (userRooms s)) s in
  (* 4. lines 123-128 *)
  let stale :=
    (filter (λ e, 5 * 60 * 1000 < now - retry_lastAttempt e.2)
       (LimitedMap.entries retries)).*1 in
  let retries := delete_all stale retries in
  (* 5. lines 134-146 *)
  if bool_decide (1200 < heapUsedMB) && bool_decide (1500 < heapUsedMB) then
    (retries,
     set_messageQueues (LimitedMap.clear (messageQueues s))
       (set_rateLimitCache (LimitedMap.clear (rateLimitCache s)) s))
  else (retries, s).

(* ================================================================= *)
(** ** Reading the events of a streaming session *)

(** The payload of [e] has [sessionId: sid]. *)
Definition has_sessionId (sid : string) (e : Emit) : bool :=
  match js_field "sessionId" (emit_payload e) with
  | Some (JStr x) => bool_decide (x = sid)
  | _ => false
  end.

(** The names of the events sent with [sessionId: sid], in order. *)
Definition ai_events (sid : string) (s : Server) : list string :=
  emit_event <$> filter (λ e, has_sessionId sid e = true) (outbox s).

(** What else happens during the answer of [sid] leaves its session alone:
    it emits nothing with [sessionId: sid] and does not create the session
    again (as a second answer with the same id would). *)
Fixpoint session_left_alone (roomId aiType sid : string)
    (cbs : list (Z * Callback)) (st : list Completion * Server) : Prop :=
  match cbs with
  | [] => True
  | cb :: cbs' =>
      match cb.2 with
      | Meanwhile f =>
          ai_events sid (f st.2) = ai_events sid st.2
          ∧ (LimitedMap.lookup sid (streamingSessions st.2) = None →
             LimitedMap.lookup sid (streamingSessions (f st.2)) = None)
      | _ => True
      end
      ∧ session_left_alone roomId aiType sid cbs' (callback roomId aiType sid st cb)
  end.

(** Nothing of an [onComplete] resolves after an [onError]: no save, no
    populate. *)
Definition is_error (cb : Z * Callback) : bool :=
  match cb.2 with Error => true | _ => false end.

Definition is_resolved (cb : Z * Callback) : bool :=
  match cb.2 with Settled _ true => true | _ => false end.

Fixpoint nothing_resolves_after_error (cbs : list (Z * Callback)) : bool :=
  match cbs with
  | [] => true
  | cb :: cbs' =>
      (if is_error cb then forallb (λ x, negb (is_resolved x)) cbs' else true)
      && nothing_resolves_after_error cbs'
  end.

(* ================================================================= *)
(** ** Reading a history payload *)

(** [payload.hasMore] and the [_id]s of [payload.messages]. *)
Definition payload_hasMore (payload : JsValue) : option JsValue :=
  js_field "hasMore" payload.

Definition payload_ids (payload : JsValue) : list JsValue :=
  match js_field "messages" payload with
  | Some (JArr l) => omap (js_field "_id") l
  | _ => []
  end.

(* ================================================================= *)
(** ** The sends of one user among other events *)

Section sends.







End sends.

(* ================================================================= *)
(** ** Concrete data for the examples *)

Module Example.

(** Tokens of the form [jwt:<user id>] verify; every session is valid. *)
Definition auth : AuthVerifier :=
  {| jwt_verify := λ token,
       if String.prefix "jwt:" token
       then JwtPayload (Some (string_drop 4 token))
       else JwtThrows "JsonWebTokenError";
     validateSession := λ _ _, {| isValid := true; validation_message := None |} |}.

Definition alice : User :=
  {| user_name := "Alice"; user_email := "alice@example.com";
     user_profileImage := None |}.

Definition first_message : Message :=
  {| msg_id := "m0"; msg_room := "r1"; msg_sender := Some "u1";
     msg_content := "hello"; msg_type := "text"; msg_file := None;
     msg_aiType := None; msg_timestamp := 1000; msg_isDeleted := false;
     msg_readers := [] |}.

Definition db0 : Database :=
  {| messages := [first_message];
     rooms := {[ "r1" := {| room_name := "general"; room_participants := [] |} ]};
     users := {[ "u1" := alice ]};
     next_id := 1 |}.

(** A client without Redis configuration, and one with a server. *)
Definition mock_redis : RedisClient.t :=
  {| RedisClient.useMock := true; RedisClient.mock := ∅;
     RedisClient.server := ∅; RedisClient.faults := [] |}.

Definition real_redis (sv : gmap string Item) : RedisClient.t :=
  {| RedisClient.useMock := false; RedisClient.mock := ∅;
     RedisClient.server := sv; RedisClient.faults := [] |}.

Definition server0 : Server := initial mock_redis db0.

(** *** A history read, a new message, a second read *)
Definition first_load :=
  loadMessages (H := fragment_json) 5000 None "r1" None 25 false mock_redis db0.

Definition db_after_send : Database :=
  (save_message "r1" (Some "u1") "again" "text" None None 6000 first_load.2).2.

Definition second_load :=
  loadMessages (H := fragment_json) 7000 None "r1" None 25 false
    first_load.1.2 db_after_send.

(** *** A session of [u1], and 41 messages in ten seconds *)
Definition connected : Server :=
  middleware (H := fragment_json) (H0 := auth)
    0 "c1" (Some "jwt:u1") (Some "session-1") "agent" "10.0.0.1" server0.

Definition after_sends (n : nat) : Server :=
  foldl (λ s i, on_chatMessage (1000 + 200 * i) "c1" "r1" "hi" None None None s)
    connected (seqZ 0 (Z.of_nat n)).



(** *** Two sockets of [u1]: the second is registered and joins [r1] while
    the first is still connected *)
Definition second_handshake : Handshake :=
  {| hs_socket := "c2"; hs_userId := "u1"; hs_sessionId := "session-2";
     hs_userAgent := "agent-2"; hs_address := "10.0.0.2" |}.

Definition u1 : SocketUser :=
  {| su_id := "u1"; su_name := "Alice"; su_email := "alice@example.com";
     su_sessionId := "session-2"; su_profileImage := None |}.

Definition two_sockets : Server :=
  on_joinRoom (H := fragment_json) 2000 "c2" "r1" false
    (on_connection second_handshake u1 connected).

(** *** A second login of [u1] while its first session is in room [r1] *)
Definition joined : Server :=
  on_joinRoom (H := fragment_json) 1000 "c1" "r1" false connected.

Definition second_login : Server :=
  middleware (H := fragment_json) (H0 := auth)
    5000 "c2" (Some "jwt:u1") (Some "session-2") "agent-2" "10.0.0.2" joined.

(** The timer of the second login fires after 8 s. *)
Definition preempted : Server :=
  preemption_timeout (H := fragment_json) (H0 := auth) 13000 "c2" second_login.






End Example.
(* ================================================================= *)
(** * Properties *)

Module LimitedMapFacts.
Import LimitedMap.
Section facts.
Context {K V : Type} `{EqDecision K} `{Truthy V}.
Implicit Types (m : t K V) (l : list (K * V)) (k : K) (v : V).

Lemma Map_set_length l k v :
  (length (Map_set k v l) ≤ S (length l))%nat.
Proof.
  induction l as [|[k' v'] l IH]; simpl; [lia|].
  case_decide; simpl; lia.
Qed.

Lemma Map_delete_length l k :
  (length (Map_delete k l) ≤ length l)%nat.
Proof. apply length_filter. Qed.

Lemma Map_delete_head_length l k v :
  (length (Map_delete k ((k, v) :: l)) ≤ length l)%nat.
Proof.
  unfold Map_delete. rewrite filter_cons_False by (simpl; tauto).
  apply length_filter.
Qed.

Lemma Map_get_None l k : Map_get k l = None ↔ k ∉ l.*1.
Proof.
  induction l as [|[k' v'] l IH]; simpl.
  - split; [intros _; apply not_elem_of_nil | done].
  - rewrite not_elem_of_cons. case_decide; subst.
    + split; [done | intros [? _]; done].
    + rewrite IH. split; [intros; split; auto | tauto].
Qed.

Lemma Map_set_fresh l k v : Map_get k l = None → Map_set k v l = l ++ [(k, v)].
Proof.
  induction l as [|[k' v'] l IH]; simpl; [done|].
  case_decide; [done|]. intros Hn. by rewrite IH.
Qed.

Lemma Map_set_keys l k v :
  (Map_set k v l).*1 = if decide (k ∈ l.*1) then l.*1 else l.*1 ++ [k].
Proof.
  induction l as [|[k' v'] l IH]; [done|].
  cbn [Map_set]. destruct (decide (k' = k)) as [->|Hk].
  - rewrite decide_True by (rewrite fmap_cons; apply list_elem_of_here). done.
  - rewrite !fmap_cons, IH. cbn [fst]. destruct (decide (k ∈ l.*1)) as [Hin|Hin].
    + rewrite decide_True by (by apply list_elem_of_further). done.
    + rewrite decide_False; [done|].
      rewrite elem_of_cons. intros [->|?]; done.
Qed.

Lemma Map_get_set l k k' v :
  Map_get k' (Map_set k v l) = if decide (k = k') then Some v else Map_get k' l.
Proof.
  induction l as [|[k0 v0] l IH]; simpl.
  - repeat case_decide; done.
  - destruct (decide (k0 = k)) as [->|Hne]; simpl.
    + repeat case_decide; congruence.
    + rewrite IH. repeat case_decide; congruence.
Qed.

Lemma Map_get_delete l k k' :
  Map_get k' (Map_delete k l) = if decide (k = k') then None else Map_get k' l.
Proof.
  unfold Map_delete.
  induction l as [|[k0 v0] l IH]; simpl.
  - by case_decide.
  - destruct (decide (k0 = k)) as [->|Hne].
    + rewrite filter_cons_False by (simpl; tauto). rewrite IH.
      repeat case_decide; congruence.
    + rewrite filter_cons_True by done. simpl. rewrite IH.
      repeat case_decide; congruence.
Qed.

Lemma Map_get_mutate l k k' (f : V → V) :
  Map_get k' (Map_mutate k f l)
  = if decide (k = k') then f <$> Map_get k' l else Map_get k' l.
Proof.
  induction l as [|[k0 v0] l IH]; simpl.
  - by case_decide.
  - destruct (decide (k0 = k)) as [->|Hne]; simpl.
    + repeat case_decide; simpl; congruence.
    + rewrite IH. repeat case_decide; simpl; congruence.
Qed.

Lemma Map_mutate_length l k (f : V → V) :
  length (Map_mutate k f l) = length l.
Proof.
  induction l as [|[k0 v0] l IH]; simpl; [done|].
  case_decide; simpl; congruence.
Qed.

Lemma Map_delete_keys l k : (Map_delete k l).*1 = filter (λ x, x ≠ k) l.*1.
Proof.
  unfold Map_delete. induction l as [|[k0 v0] l IH]; [done|].
  rewrite fmap_cons. cbn [fst].
  destruct (decide (k0 = k)) as [->|Hne].
  - rewrite !filter_cons_False by (simpl; tauto). done.
  - rewrite !filter_cons_True by done. rewrite fmap_cons. by rewrite IH.
Qed.

Lemma Map_delete_oldest l k v :
  NoDup ((k, v) :: l).*1 → Map_delete k ((k, v) :: l) = l.
Proof.
  simpl. rewrite NoDup_cons. intros [Hk _]. unfold Map_delete.
  rewrite filter_cons_False by (simpl; tauto).
  assert (Forall (λ e, e.1 ≠ k) l) as Hall.
  { apply Forall_forall. intros [k' v'] Hin; simpl; intros ->. apply Hk.
    apply list_elem_of_fmap. by exists (k, v'). }
  clear Hk. induction Hall as [|x l Hx Hall IH]; [done|].
  rewrite filter_cons_True by done. by rewrite IH.
Qed.

(** *** The size bound *)

Lemma size_set m k v :
  (size m ≤ maxSize m `max` 1)%nat → (size (set k v m) ≤ maxSize m `max` 1)%nat.
Proof.
  intros Hle. unfold set, size in *.
  destruct m as [l n h ms]; simpl in *.
  case_decide as Hfull; simpl.
  - destruct l as [|[k0 v0] l]; simpl in *; [lia|].
    unfold oldestKey, keys; simpl.
    pose proof (Map_delete_head_length l k0 v0).
    pose proof (Map_set_length (Map_delete k0 ((k0, v0) :: l)) k v).
    simpl in *. lia.
  - pose proof (Map_set_length l k v). lia.
Qed.

Lemma maxSize_set m k v : maxSize (set k v m) = maxSize m.
Proof. unfold set. case_decide; [destruct (oldestKey m)|]; reflexivity. Qed.

Lemma maxSize_get m k : maxSize (get k m).2 = maxSize m.
Proof. unfold get; simpl. destruct (truthy _); reflexivity. Qed.

Lemma entries_get m k : entries (get k m).2 = entries m.
Proof. unfold get; simpl. destruct (truthy _); reflexivity. Qed.

Lemma get_value m k : (get k m).1 = lookup k m.
Proof. reflexivity. Qed.

Lemma lookup_get m k k' : lookup k' (get k m).2 = lookup k' m.
Proof. unfold lookup. by rewrite entries_get. Qed.

Lemma maxSize_apply m o : maxSize (apply m o) = maxSize m.
Proof.
  destruct o as [k v|k|k|k|];
    [apply maxSize_set | apply maxSize_get | reflexivity ..].
Qed.

Lemma size_apply m o :
  (size m ≤ maxSize m `max` 1)%nat → (size (apply m o) ≤ maxSize m `max` 1)%nat.
Proof.
  intros Hle. destruct o as [k v|k|k|k|]; cbn [apply].
  - by apply size_set.
  - unfold size. by rewrite entries_get.
  - exact Hle.
  - unfold delete, size in *; simpl.
    pose proof (Map_delete_length (entries m) k). lia.
  - unfold clear, size; simpl. lia.
Qed.

Lemma size_run ops m :
  (size m ≤ maxSize m `max` 1)%nat →
  (size (run ops m) ≤ maxSize m `max` 1)%nat.
Proof.
  revert m. induction ops as [|o ops IH]; intros m Hle; simpl; [done|].
  unfold run in *; simpl. rewrite <- (maxSize_apply m o).
  apply IH. rewrite maxSize_apply. by apply size_apply.
Qed.

Lemma maxSize_run ops m : maxSize (run ops m) = maxSize m.
Proof.
  revert m. induction ops as [|o ops IH]; intros m; [done|].
  unfold run in *; simpl. by rewrite IH, maxSize_apply.
Qed.

(** *** Keys stay distinct *)

Lemma wf_create n : wf (create (K:=K) (V:=V) n).
Proof. apply NoDup_nil_2. Qed.

Lemma wf_delete m k : wf m → wf (delete k m).
Proof.
  unfold wf, keys, delete; simpl. rewrite Map_delete_keys.
  apply NoDup_filter.
Qed.

Lemma wf_set m k v : wf m → wf (set k v m).
Proof.
  intros Hwf. unfold set.
  assert (∀ m', wf m' → wf (with_entries (Map_set k v (entries m')) m')) as Hset.
  { intros m'. unfold wf, keys; simpl. rewrite Map_set_keys.
    case_decide as Hin; [done|]. intros Hnd.
    apply NoDup_app. split_and!; [done| |apply NoDup_singleton].
    intros x Hx Hx'. apply list_elem_of_singleton in Hx'. by subst. }
  case_decide; [destruct (oldestKey m)|]; apply Hset; auto using wf_delete.
Qed.

Lemma wf_apply m o : wf m → wf (apply m o).
Proof.
  destruct o as [k v|k|k|k|]; cbn [apply]; auto using wf_set, wf_delete.
  - unfold wf, keys. by rewrite entries_get.
  - intros _. apply NoDup_nil_2.
Qed.

Lemma wf_run ops m : wf m → wf (run ops m).
Proof.
  revert m. induction ops as [|o ops IH]; intros m Hwf; [done|].
  unfold run in *; simpl. by apply IH, wf_apply.
Qed.

(** *** Eviction *)

Lemma set_evicts m k v :
  wf m → (1 ≤ size m)%nat → (maxSize m ≤ size m)%nat → lookup k m = None →
  entries (set k v m) = tail (entries m) ++ [(k, v)].
Proof.
  intros Hwf Hne Hfull Hnew. unfold set.
  rewrite decide_True by done.
  destruct m as [[|[k0 v0] l] n h ms]; unfold size in *; simpl in *; [lia|].
  unfold oldestKey, keys; simpl. unfold delete; simpl.
  rewrite Map_delete_oldest by exact Hwf.
  apply Map_set_fresh.
  unfold lookup in Hnew; simpl in Hnew. by case_decide.
Qed.
End facts.
End LimitedMapFacts.

(* ================================================================= *)
(** ** The bounded registry *)

Section registry_claims.
Import LimitedMap LimitedMapFacts.

(** C4.  A registry created with a maximum size [N ≥ 1], as the six
    registries of chat.js are (lines 48-53: 200 to 2000, and 1000 by
    default), never holds more than [N] entries, whatever sequence of [set],
    [get], [has], [delete] and [clear] it undergoes; and when it holds [N]
    entries, a [set] of a new key first drops the oldest-inserted entry: the
    others keep their order, the new entry comes last and the size is [N]
    again. *)
Theorem registry_bounded_and_evicts_oldest
    {K V : Type} `{EqDecision K} `{Truthy V}
    (N : nat) (ops : list (op K V)) (k : K) (v : V) :
  (1 ≤ N)%nat →
  let m := run ops (create N) in
  (size m ≤ N)%nat
  ∧ (size m = N → lookup k m = None →
       entries (set k v m) = tail (entries m) ++ [(k, v)]
       ∧ (∀ o, oldestKey m = Some o → lookup o (set k v m) = None)
       ∧ size (set k v m) = N).
Proof.
  intros HN m. split.
  - assert (size m ≤ N `max` 1)%nat as Hbound
      by (apply (size_run ops (create N)); unfold size; simpl; lia).
    lia.
  - intros Hsize Hnew.
    assert (wf m) as Hwf by apply wf_run, wf_create.
    assert (maxSize m = N) as Hmax by apply maxSize_run.
    assert (entries (set k v m) = tail (entries m) ++ [(k, v)]) as Hent.
    { apply set_evicts; [done|lia|lia|done]. }
    split_and!; [done| |].
    + intros o Ho. unfold lookup. rewrite Hent.
      unfold oldestKey, keys, wf, keys, lookup, size in *.
      destruct (entries m) as [|[k0 v0] l]; simpl in *; [done|].
      injection Ho as ->. apply NoDup_cons in Hwf as [Hk0 _].
      apply Map_get_None. rewrite fmap_app, elem_of_app. simpl.
      intros [Hin|Hin]; [done|].
      apply list_elem_of_singleton in Hin. subst.
      by rewrite decide_True in Hnew.
    + unfold size in *. rewrite Hent, length_app. simpl.
      destruct (entries m); simpl in *; lia.
Qed.

(** A full registry of two entries receives a third key. *)
Lemma registry_bounded_and_evicts_oldest_witness :
  let m := run [OpSet "a" 1; OpSet "b" 2] (create 2) in
  (size m ≤ 2)%nat
  ∧ entries (set "c" 3 m) = [("b", 2); ("c", 3)]
  ∧ lookup "a" (set "c" 3 m) = None.
Proof.
  intros m.
  destruct (registry_bounded_and_evicts_oldest 2 [OpSet "a" 1; OpSet "b" 2] "c" 3)
    as [Hsize Hev]; [lia|].
  destruct Hev as (Hent & Hold & _); [reflexivity | reflexivity |].
  split_and!; [exact Hsize | exact Hent | apply Hold; reflexivity].
Defined.

(** The bound needs [N ≥ 1]: on a registry of capacity 0, which chat.js
    never creates, the first [set] finds nothing to evict and stores its
    entry. *)
Lemma registry_of_capacity_zero_holds_one :
  size (set "a" 1 (create (K:=string) (V:=Z) 0)) = 1%nat.
Proof. reflexivity. Qed.
End registry_claims.

(* ================================================================= *)
(** ** Sorting *)

Section sorting_facts.
Context {A : Type} (le : A → A → bool).

Lemma insert_sorted_Permutation x l : insert_sorted le x l ≡ₚ x :: l.
Proof.
  induction l as [|y l IH]; simpl; [done|].
  destruct (le x y); [done|]. rewrite IH. apply Permutation_swap.
Qed.

Lemma sort_by_Permutation l : sort_by le l ≡ₚ l.
Proof.
  induction l as [|x l IH]; simpl; [done|].
  rewrite insert_sorted_Permutation. by rewrite IH.
Qed.

Lemma sort_by_length l : length (sort_by le l) = length l.
Proof. apply Permutation_length, sort_by_Permutation. Qed.

Hypothesis le_total : ∀ a b, le a b = true ∨ le b a = true.

Lemma insert_sorted_Sorted x l :
  Sorted (λ a b, le a b = true) l →
  Sorted (λ a b, le a b = true) (insert_sorted le x l).
Proof.
  induction 1 as [|y l Hl IH Hy]; simpl.
  - repeat constructor.
  - destruct (le x y) eqn:Hxy.
    + constructor; [by constructor | by constructor].
    + constructor; [done|].
      destruct (le_total x y) as [?|Hyx]; [congruence|].
      destruct Hy as [|z l' Hz]; simpl.
      * by constructor.
      * destruct (le x z); by constructor.
Qed.

Lemma sort_by_Sorted l : Sorted (λ a b, le a b = true) (sort_by le l).
Proof.
  induction l as [|x l IH]; simpl; [constructor|].
  by apply insert_sorted_Sorted.
Qed.
End sorting_facts.

Lemma older_first_total a b : older_first a b = true ∨ older_first b a = true.
Proof.
  unfold older_first.
  destruct (decide (msg_timestamp a ≤ msg_timestamp b)).
  - left. by apply bool_decide_eq_true.
  - right. apply bool_decide_eq_true. lia.
Qed.

Lemma StronglySorted_weaken {A} (R R' : A → A → Prop) l :
  (∀ a b, R a b → R' a b) → StronglySorted R l → StronglySorted R' l.
Proof.
  intros HR. induction 1 as [|x l Hl IH Hx]; constructor; [done|].
  eapply Forall_impl; [exact Hx | auto].
Qed.

Lemma sort_older_first_sorted l :
  StronglySorted (λ a b, msg_timestamp a ≤ msg_timestamp b)
    (sort_by older_first l).
Proof.
  apply (StronglySorted_weaken (λ a b, older_first a b = true)).
  - intros a b Hab. unfold older_first in Hab.
    by apply bool_decide_eq_true in Hab.
  - apply Sorted_StronglySorted.
    + intros a b c. unfold older_first. rewrite !bool_decide_eq_true. lia.
    + apply sort_by_Sorted, older_first_total.
Qed.

(* ================================================================= *)
(** ** The cache client *)

Section redis_facts.
Context `{JSON}.
Import RedisClient.

Lemma next_fault_stores c :
  useMock (next_fault c).2 = useMock c
  ∧ mock (next_fault c).2 = mock c
  ∧ server (next_fault c).2 = server c.
Proof. unfold next_fault. by destruct (faults c). Qed.

(** A read that reaches the server. *)
Lemma get_from_server now key c :
  useMock c = false → (next_fault c).1 = false →
  get now key c
  = (match RedisServer.GET now key (server c) with
     | None => JNull
     | Some value =>
         if negb (truthy value) then JNull
         else match JSON_parse value with
              | Some v => v
              | None => JStr value
              end
     end, (next_fault c).2).
Proof.
  intros Hreal Hfault. unfold get. rewrite Hreal.
  destruct (next_fault_stores c) as (_ & _ & Hsv).
  destruct (next_fault c) as [f c'] eqn:Hnf; simpl in *. subst f.
  rewrite Hsv.
  destruct (RedisServer.GET now key (server c)) as [value|]; [|done].
  destruct (negb (truthy value)); [done|].
  by destruct (JSON_parse value).
Qed.

(** A read in mock mode gives the stored text as it is. *)
Lemma get_from_mock now key c :
  useMock c = true →
  get now key c
  = (of_null (MockRedisClient.get now key (mock c)).1,
     with_mock (MockRedisClient.get now key (mock c)).2 c).
Proof.
  intros Hmock. unfold get. rewrite Hmock.
  by destruct (MockRedisClient.get now key (mock c)).
Qed.


(** *** [loadMessages] *)

Lemma loadMessages_from_cache now user roomId before limit timeout redis db payload :
  from_cache (get now (messages_cacheKey roomId before limit) redis).1
  = Some payload →
  loadMessages now user roomId before limit timeout redis db
  = (Ok payload, (get now (messages_cacheKey roomId before limit) redis).2, db).
Proof.
  intros Hc. unfold loadMessages.
  destruct (get now _ redis) as [cached redis1]; simpl in *. by rewrite Hc.
Qed.

Lemma loadMessages_from_store now user roomId before limit redis db :
  from_cache (get now (messages_cacheKey roomId before limit) redis).1 = None →
  let key := messages_cacheKey roomId before limit in
  let r := build_result limit (find_messages roomId before (limit + 1) db) in
  loadMessages now user roomId before limit false redis db
  = (Ok (result_to_js db r),
     setEx now key 30 (JStr (JSON_stringify (result_to_js db r)))
       (get now key redis).2,
     match res_messages r, user with
     | _ :: _, Some u => mark_read (su_id u) now (msg_id <$> res_messages r) db
     | _, _ => db
     end).
Proof.
  intros Hc key r. subst key r. unfold loadMessages.
  destruct (get now _ redis) as [cached redis1]; simpl in *. by rewrite Hc.
Qed.

End redis_facts.

(** *** The rows of a history query *)

Lemma find_messages_length roomId before n db :
  (length (find_messages roomId before n db) ≤ n)%nat.
Proof. unfold find_messages. rewrite length_take. lia. Qed.

Lemma build_result_facts limit roomId before db :
  let rows := find_messages roomId before (limit + 1) db in
  let r := build_result limit rows in
  StronglySorted (λ a b, msg_timestamp a ≤ msg_timestamp b) (res_messages r)
  ∧ (length (res_messages r) ≤ limit)%nat
  ∧ res_oldestTimestamp r = msg_timestamp <$> head (res_messages r)
  ∧ (res_hasMore r = true ↔ length rows = (limit + 1)%nat)
  ∧ (res_hasMore r = true → res_messages r ≡ₚ take limit rows)
  ∧ (res_hasMore r = false →
       res_messages r ≡ₚ filter (λ m, matches roomId before m) (messages db)).
Proof.
  intros rows r. subst r. unfold build_result; simpl.
  pose proof (find_messages_length roomId before (limit + 1) db) as Hlen.
  fold rows in Hlen. split_and!.
  - apply sort_older_first_sorted.
  - rewrite sort_by_length, length_take. lia.
  - done.
  - rewrite bool_decide_eq_true. lia.
  - intros _. apply sort_by_Permutation.
  - rewrite bool_decide_eq_false. intros Hle.
    rewrite sort_by_Permutation.
    rewrite take_ge by lia.
    subst rows. unfold find_messages in *.
    rewrite length_take, sort_by_length in Hle.
    rewrite take_ge by (rewrite sort_by_length; lia).
    apply sort_by_Permutation.
Qed.

(* ================================================================= *)
(** ** History fetch *)

Lemma matches_spec roomId before m :
  matches roomId before m = true ↔
  msg_room m = roomId ∧ msg_isDeleted m = false
  ∧ ∀ t, before = Some t → msg_timestamp m < t.
Proof.
  unfold matches. rewrite !andb_true_iff, bool_decide_eq_true, negb_true_iff.
  destruct before as [t|].
  - rewrite bool_decide_eq_true. split.
    + intros [[? ?] ?]. split_and!; [done..|]. by intros ? [= <-].
    + intros (? & ? & Ht). split_and!; auto.
  - split; [intros [[? ?] _]; split_and!; [done..|]; by intros ? [=]
           | intros (? & ? & _); done].
Qed.

(** C2, as amended.  A fetch that finds no usable payload under its cache key
    and does not time out returns the result built from the store: the
    messages are sorted by ascending timestamp and are at most [limit];
    [oldestTimestamp] is the timestamp of the first of them; [hasMore] holds
    exactly when the query for [limit + 1] rows returned [limit + 1], the
    messages then being the first [limit] rows; and when [hasMore] is false
    the messages are exactly the messages of the store that are in the room,
    not deleted and older than [before].  (A usable payload under the key is
    returned as it is: see [stale_history_from_cache].) *)
Theorem history_fetch_from_store `{JSON}
    (now : Z) (user : option SocketUser) (roomId : string) (before : option Z)
    (limit : nat) (redis : RedisClient.t) (db : Database) :
  from_cache (RedisClient.get now (messages_cacheKey roomId before limit) redis).1
  = None →
  let rows := find_messages roomId before (limit + 1) db in
  let r := build_result limit rows in
  (loadMessages now user roomId before limit false redis db).1.1
  = Ok (result_to_js db r)
  ∧ StronglySorted (λ a b, msg_timestamp a ≤ msg_timestamp b) (res_messages r)
  ∧ (length (res_messages r) ≤ limit)%nat
  ∧ res_oldestTimestamp r = msg_timestamp <$> head (res_messages r)
  ∧ (res_hasMore r = true ↔ length rows = (limit + 1)%nat)
  ∧ (res_hasMore r = true → res_messages r ≡ₚ take limit rows)
  ∧ (res_hasMore r = false →
       res_messages r ≡ₚ filter (λ m, matches roomId before m) (messages db)
       ∧ ∀ m, m ∈ res_messages r ↔
              m ∈ messages db ∧ msg_room m = roomId ∧ msg_isDeleted m = false
              ∧ ∀ t, before = Some t → msg_timestamp m < t).
Proof.
  intros Hmiss rows r.
  destruct (build_result_facts limit roomId before db)
    as (Hsorted & Hlen & Hold & Hmore & Hdrop & Hall).
  split_and!; try done.
  - by rewrite loadMessages_from_store.
  - intros Hno. specialize (Hall Hno). split; [done|].
    intros m. fold rows r in Hall. rewrite Hall, list_elem_of_filter.
    rewrite Is_true_true, matches_spec. tauto.
Qed.

(** The only message of room [r1], read with an empty cache. *)
Lemma history_fetch_from_store_witness :
  let r := build_result 25 (find_messages "r1" None 26 Example.db0) in
  res_hasMore r = false
  ∧ res_messages r ≡ₚ filter (λ m, matches "r1" None m) (messages Example.db0).
Proof.
  intros r.
  destruct (history_fetch_from_store (H := fragment_json) 5000 None "r1" None 25
              Example.mock_redis Example.db0 eq_refl)
    as (_ & _ & _ & _ & _ & _ & Hall).
  split; [reflexivity|]. apply Hall. reflexivity.
Defined.

(** C2 as stated fails on a cache hit.  After a first fetch of room [r1] a
    message is saved in the room; a second fetch two seconds later returns
    the payload cached by the first, with [hasMore] false and without the new
    message. *)
Lemma stale_history_from_cache :
  ¬ (∀ (now : Z) (user : option SocketUser) (roomId : string)
       (before : option Z) (limit : nat) (timeout : bool)
       (redis : RedisClient.t) (db : Database) (payload : JsValue),
       (loadMessages (H := fragment_json)
          now user roomId before limit timeout redis db).1.1 = Ok payload →
       payload_hasMore payload = Some (JBool false) →
       ∀ m, m ∈ messages db → matches roomId before m = true →
            JStr (msg_id m) ∈ payload_ids payload).
Proof.
  intros Hclaim.
  pose (payload := match Example.second_load.1.1 with
                   | Ok p => p
                   | Throw _ => JNull
                   end).
  assert (JStr "m1" ∈ payload_ids payload) as Hin.
  { apply (Hclaim 7000 None "r1" None 25%nat false
             Example.first_load.1.2 Example.db_after_send payload
             eq_refl eq_refl
             {| msg_id := "m1"; msg_room := "r1"; msg_sender := Some "u1";
                msg_content := "again"; msg_type := "text"; msg_file := None;
                msg_aiType := None; msg_timestamp := 6000;
                msg_isDeleted := false; msg_readers := [] |}).
    - vm_compute. apply list_elem_of_further, list_elem_of_here.
    - reflexivity. }
  vm_compute in Hin.
  apply list_elem_of_singleton in Hin. discriminate Hin.
Qed.

(* ================================================================= *)
(** ** Reads and writes of the cache *)

Lemma truthy_string (s : string) : s ≠ "" → truthy s = true.
Proof. intros Hs. unfold truthy, string_truthy. by rewrite decide_False. Qed.






(* ================================================================= *)
(** ** Rate limiting *)

Section lm_lookup.
Import LimitedMap LimitedMapFacts.
Context {K V : Type} `{EqDecision K} `{Truthy V}.
Implicit Types (m : t K V) (k : K) (v : V).

Lemma lookup_set_eq m k v : lookup k (set k v m) = Some v.
Proof.
  unfold lookup, set. simpl. rewrite Map_get_set. by rewrite decide_True.
Qed.


Lemma lookup_mutate m k k' (f : V → V) :
  lookup k' (mutate k f m)
  = if decide (k = k') then f <$> lookup k' m else lookup k' m.
Proof. unfold lookup, mutate. simpl. apply Map_get_mutate. Qed.

Lemma lookup_delete m k k' :
  lookup k' (delete k m) = if decide (k = k') then None else lookup k' m.
Proof. unfold lookup, delete. simpl. apply Map_get_delete. Qed.
End lm_lookup.



Section redis_frames.
Context `{JSON}.
Import RedisClient.

Lemma frame_refl key' c : frame key' c c.
Proof. split; auto. Qed.









End redis_frames.

Section rate_limit_facts.
Context `{JSON}.
Import LimitedMap LimitedMapFacts.
Implicit Types (cache : LimitedMap.t string RateEntry) (redis : RedisClient.t).



Lemma checkRateLimit_miss now userId cache redis :
  lookup (rateLimitKey userId (window_of now)) cache = None →
  let key := "rate_limit:" +:+ rateLimitKey userId (window_of now) in
  let cache1 := (get (rateLimitKey userId (window_of now)) cache).2 in
  let reply := RedisClient.incr now key redis in
  checkRateLimit now userId cache redis
  = match reply.1 with
    | Returned count =>
        let redis1 :=
          if number_is count 1 then (RedisClient.expire now key 60 reply.2).2
          else reply.2 in
        if number_gt count RATE_LIMIT_MAX
        then (Throw limit_error, cache1, redis1)
        else (Ok (),
              set (rateLimitKey userId (window_of now))
                {| rate_count := count; rate_timestamp := now |} cache1,
              redis1)
    | Thrown =>
        (Ok (),
         set (rateLimitKey userId (window_of now))
           {| rate_count := Int 1; rate_timestamp := now |} cache1,
         reply.2)
    end.
Proof.
  intros Hmiss key cache1 reply. subst key cache1 reply. unfold checkRateLimit.
  destruct (get _ cache) as [cached cache1] eqn:Hget.
  assert (cached = None) as -> by (by rewrite <- Hmiss, <- get_value, Hget).
  simpl. destruct (RedisClient.incr now _ redis) as [[count|] redis1]; simpl; [|done].
  by destruct (number_is count 1), (number_gt count RATE_LIMIT_MAX).
Qed.



End rate_limit_facts.

Section send_sequences.
Context `{JSON}.
Import LimitedMap LimitedMapFacts.
Implicit Types (cache : LimitedMap.t string RateEntry) (redis : RedisClient.t).







End send_sequences.

Section send_windows.
Context `{JSON}.
Import LimitedMap LimitedMapFacts.
Implicit Types (cache : LimitedMap.t string RateEntry) (redis : RedisClient.t).





End send_windows.


(* ================================================================= *)
(** ** Rate limiting: the claim *)





(* ================================================================= *)
(** ** The disconnect handler *)

Section disconnect_facts.
Import LimitedMap LimitedMapFacts.

(** What [on_disconnect] does to the two registries of lines 983-990. *)
Lemma on_disconnect_registries now c sock reason s user :
  sock_user sock = Some user →
  connectedUsers (on_disconnect now c sock reason s)
  = (if decide (lookup (su_id user) (connectedUsers s) = Some c)
     then delete (su_id user) (get (su_id user) (connectedUsers s)).2
     else (get (su_id user) (connectedUsers s)).2)
  ∧ userRooms (on_disconnect now c sock reason s)
    = (if truthy (lookup (su_id user) (userRooms s))
       then delete (su_id user) (get (su_id user) (userRooms s)).2
       else (get (su_id user) (userRooms s)).2).
Proof.
  intros Hu. unfold on_disconnect. rewrite Hu.
  destruct (get (su_id user) (connectedUsers s)) as [current cu] eqn:Hcu.
  assert (current = lookup (su_id user) (connectedUsers s)) as ->
    by (by rewrite <- get_value, Hcu).
  assert (cu = (get (su_id user) (connectedUsers s)).2) as -> by (by rewrite Hcu).
  cbn [userRooms set_connectedUsers].
  destruct (get (su_id user) (userRooms s)) as [roomId ur] eqn:Hur.
  assert (roomId = lookup (su_id user) (userRooms s)) as ->
    by (by rewrite <- get_value, Hur).
  assert (ur = (get (su_id user) (userRooms s)).2) as -> by (by rewrite Hur).
  destruct (lookup (su_id user) (userRooms s)) as [room|]; [|by split].
  destruct (truthy room && _ && _); [|by split].
  cbn [save_message]. cbn -[get delete].
  destruct (_ !! room); by split.
Qed.

(** C9.  On the disconnect of a socket [c] authenticated as [u], the entry of
    [u] in the connection registry is removed when it maps [u] to [c] and is
    kept otherwise, but the current room of [u] is deleted whichever socket
    the registry holds.  Hence the disconnect of a stale socket, after the
    newer session [c2] of [u] has joined a room, leaves [c2] registered and
    erases its current room. *)
Theorem stale_disconnect_erases_current_room
    (now : Z) (c : string) (sock : Socket) (reason : string) (s : Server)
    (user : SocketUser) :
  sock_user sock = Some user →
  let u := su_id user in
  let s' := on_disconnect now c sock reason s in
  (lookup u (connectedUsers s) = Some c → lookup u (connectedUsers s') = None)
  ∧ (lookup u (connectedUsers s) ≠ Some c →
     lookup u (connectedUsers s') = lookup u (connectedUsers s))
  ∧ (∀ r, lookup u (userRooms s) = Some r → r ≠ "" →
          lookup u (userRooms s') = None)
  ∧ (∀ c2 r, c2 ≠ c →
       lookup u (connectedUsers s) = Some c2 →
       lookup u (userRooms s) = Some r → r ≠ "" →
       lookup u (connectedUsers s') = Some c2 ∧ lookup u (userRooms s') = None).
Proof.
  intros Hu u s'.
  destruct (on_disconnect_registries now c sock reason s user Hu) as [Hcu Hur].
  fold u s' in Hcu, Hur.
  assert (∀ r, lookup u (userRooms s) = Some r → r ≠ "" →
               lookup u (userRooms s') = None) as Hroom.
  { intros r Hr Hne. rewrite Hur, Hr.
    replace (truthy (Some r)) with true by (symmetry; by apply truthy_string).
    by rewrite lookup_delete, decide_True. }
  assert (lookup u (connectedUsers s) ≠ Some c →
          lookup u (connectedUsers s') = lookup u (connectedUsers s)) as Hkept.
  { intros Hne. rewrite Hcu, decide_False by done. apply lookup_get. }
  split_and!; [|done|done|].
  - intros Hc. rewrite Hcu, decide_True by done.
    by rewrite lookup_delete, decide_True.
  - intros c2 r Hc2 Hreg Hr Hne. split; [|by eapply Hroom].
    rewrite Hkept; [done|]. rewrite Hreg. congruence.
Qed.

(** The first socket of [u1] disconnects after the second has joined [r1]. *)
Lemma stale_disconnect_erases_current_room_witness :
  lookup "u1" (userRooms Example.two_sockets) = Some "r1"
  ∧ let s' := on_disconnect 3000 "c1"
                {| sock_user := Some Example.u1; sock_rooms := [];
                   sock_userAgent := "agent"; sock_address := "10.0.0.1" |}
                "transport close" Example.two_sockets in
    lookup "u1" (connectedUsers s') = Some "c2"
    ∧ lookup "u1" (userRooms s') = None.
Proof.
  split; [vm_compute; reflexivity|].
  destruct (stale_disconnect_erases_current_room 3000 "c1"
              {| sock_user := Some Example.u1; sock_rooms := [];
                 sock_userAgent := "agent"; sock_address := "10.0.0.1" |}
              "transport close" Example.two_sockets Example.u1 eq_refl)
    as (_ & _ & _ & Hstale).
  apply (Hstale "c2" "r1"); [discriminate | vm_compute; reflexivity
                            | vm_compute; reflexivity | discriminate].
Defined.
End disconnect_facts.

(* ================================================================= *)
(** ** Sessions: registration, pre-emption, disconnect *)

Section session_facts.
Context `{JSON} `{AuthVerifier}.
Import LimitedMap LimitedMapFacts.


(** What the disconnect listener of chat.js leaves alone, and what it emits:
    events to rooms only. *)
Lemma on_disconnect_frame now c sock reason s :
  sockets (on_disconnect now c sock reason s) = sockets s
  ∧ waiting (on_disconnect now c sock reason s) = waiting s
  ∧ redis (on_disconnect now c sock reason s) = redis s
  ∧ users (db (on_disconnect now c sock reason s)) = users (db s)
  ∧ ∃ l, outbox (on_disconnect now c sock reason s) = outbox s ++ l
         ∧ Forall (λ e, ∃ r, emit_target e = ToRoom r) l.
Proof.
  unfold on_disconnect.
  destruct (sock_user sock) as [user|];
    [|split_and!; try done; exists []; by rewrite app_nil_r].
  destruct (get (su_id user) (connectedUsers s)) as [current cu].
  cbn [userRooms set_connectedUsers].
  destruct (get (su_id user) (userRooms s)) as [roomId ur].
  destruct roomId as [room|];
    [|split_and!; try done; exists []; by rewrite app_nil_r].
  destruct (truthy room && _ && _);
    [|split_and!; try done; exists []; by rewrite app_nil_r].
  cbn [save_message]. cbn -[get delete].
  destruct (_ !! room).
  - split_and!; try done. unfold emit. simpl. eexists. rewrite <- app_assoc.
    split; [done|].
    repeat constructor; by eexists.
  - split_and!; try done. exists []. by rewrite app_nil_r.
Qed.

Lemma on_connection_facts h user s :
  lookup (su_id user) (connectedUsers (on_connection h user s)) = Some (hs_socket h)
  ∧ sockets (on_connection h user s)
    = <[hs_socket h := {| sock_user := Some user; sock_rooms := [];
                          sock_userAgent := hs_userAgent h;
                          sock_address := hs_address h |}]> (sockets s)
  ∧ outbox (on_connection h user s) = outbox s
  ∧ waiting (on_connection h user s) = waiting s
  ∧ userRooms (on_connection h user s) = userRooms s
  ∧ db (on_connection h user s) = db s.
Proof.
  unfold on_connection. cbn [connectedUsers set_sockets].
  destruct (get (su_id user) (connectedUsers s)) as [previous cu].
  split_and!; try done. apply lookup_set_eq.
Qed.

Lemma socket_user_of_doc uid sessionId doc :
  socket_user (user_to_js uid doc) sessionId = Some (resolved_user uid sessionId doc).
Proof.
  unfold socket_user, user_to_js, resolved_user, string_field. simpl.
  by destruct (user_profileImage doc).
Qed.

(** A valid session whose user is not in the cache but is in the store: the
    handshake ends in [on_connection]. *)
Lemma authenticate_from_store now h s doc :
  isValid (validateSession (hs_userId h) (hs_sessionId h)) = true →
  from_cache (RedisClient.get now ("user:" +:+ hs_userId h) (redis s)).1 = None →
  users (db s) !! hs_userId h = Some doc →
  authenticate now h s
  = on_connection h (resolved_user (hs_userId h) (hs_sessionId h) doc)
      (set_redis
         (RedisClient.setEx now ("user:" +:+ hs_userId h) 300
            (JStr (JSON_stringify (user_to_js (hs_userId h) doc)))
            (RedisClient.get now ("user:" +:+ hs_userId h) (redis s)).2) s).
Proof.
  intros Hvalid Hmiss Hdoc. unfold authenticate. rewrite Hvalid. cbn [negb].
  destruct (RedisClient.get now _ (redis s)) as [cached r]. cbn [fst snd] in *.
  rewrite Hmiss. cbn [db set_redis]. rewrite Hdoc.
  by rewrite socket_user_of_doc.
Qed.
End session_facts.

Section preemption_facts.
Context `{JSON} `{AuthVerifier}.
Import LimitedMap LimitedMapFacts.










End preemption_facts.

Section preemption_claim.
Context `{JSON} `{AuthVerifier}.
Import LimitedMap LimitedMapFacts.

End preemption_claim.



(** C5: here the code departs from the claim and from its own comment
    (line 1013: the leave message is meant for disconnects other than a
    duplicate login).  The first session of [u1] is in room [r1]; a second
    login arrives and its 8 s timer fires.  The pre-empted socket is closed
    with the reason [server namespace disconnect], which the test of line
    1014 lets through: the message of the disconnect is saved, [u1] is taken
    out of the participants of [r1], and both are sent to the room. *)
Theorem preempted_session_leaves_disconnect_message :
  room_participants <$> rooms (db Example.second_login) !! "r1" = Some ["u1"]
  ∧ msg_content <$> messages (db Example.second_login)
    = ["hello"; "Alice님이 입장하였습니다."]
  ∧ msg_content <$> messages (db Example.preempted)
    = ["hello"; "Alice님이 입장하였습니다."; "Alice님이 연결이 끊어졌습니다."]
  ∧ room_participants <$> rooms (db Example.preempted) !! "r1" = Some []
  ∧ drop 2 (received (ToRoom "r1") Example.preempted)
    = [("message",
        JObj [("_id", JStr "m2"); ("room", JStr "r1");
              ("content", JStr "Alice님이 연결이 끊어졌습니다.");
              ("sender", JNull); ("type", JStr "system");
              ("timestamp", JNum 13000); ("file", JNull); ("aiType", JNull)]);
       ("participantsUpdate", JArr [])].
Proof. split_and!; vm_compute; reflexivity. Qed.

(* ================================================================= *)
(** ** Joining a room *)

(** C7, as amended.  For a user already in room [r], a second [joinRoom] of
    [r] changes nothing of the current-room mapping (only the hit counter of
    the registry), of the participants, of the saved messages, of the cache
    and of the other registries: no join message is created.  The caller is
    sent [joinRoomSuccess] with the [roomId] alone; participants, messages,
    [hasMore] and [oldestTimestamp] are not sent again. *)
Theorem rejoin_changes_nothing_and_returns_roomId `{JSON}
    (now : Z) (c roomId : string) (timeout : bool) (s : Server)
    (sock : Socket) (user : SocketUser) :
  sockets s !! c = Some sock → sock_user sock = Some user →
  LimitedMap.lookup (su_id user) (userRooms s) = Some roomId →
  let s' := on_joinRoom now c roomId timeout s in
  outbox s'
  = outbox s ++ [mkEmit (ToSocket c) "joinRoomSuccess" (JObj [("roomId", JStr roomId)])]
  ∧ LimitedMap.entries (userRooms s') = LimitedMap.entries (userRooms s)
  ∧ db s' = db s ∧ redis s' = redis s ∧ sockets s' = sockets s
  ∧ connectedUsers s' = connectedUsers s
  ∧ streamingSessions s' = streamingSessions s
  ∧ waiting s' = waiting s.
Proof.
  intros Hc Hu Hroom s'. subst s'. unfold on_joinRoom. rewrite Hc, Hu.
  destruct (LimitedMap.get (su_id user) (userRooms s)) as [currentRoom ur] eqn:Hget.
  assert (currentRoom = Some roomId) as ->
    by (by rewrite <- Hroom, <- LimitedMapFacts.get_value, Hget).
  rewrite decide_True by done.
  split_and!; try done.
  simpl. replace ur with (LimitedMap.get (su_id user) (userRooms s)).2
    by (by rewrite Hget).
  apply LimitedMapFacts.entries_get.
Qed.

(** The first session of [u1], in [r1], joins [r1] again. *)
Lemma rejoin_changes_nothing_and_returns_roomId_witness :
  let s' := on_joinRoom (H := fragment_json) 2000 "c1" "r1" false Example.joined in
  outbox s'
  = outbox Example.joined
    ++ [mkEmit (ToSocket "c1") "joinRoomSuccess" (JObj [("roomId", JStr "r1")])]
  ∧ db s' = db Example.joined.
Proof.
  intros s'.
  destruct (rejoin_changes_nothing_and_returns_roomId (H := fragment_json)
              2000 "c1" "r1" false Example.joined
              {| sock_user := Some {| su_id := "u1"; su_name := "Alice";
                                      su_email := "alice@example.com";
                                      su_sessionId := "session-1";
                                      su_profileImage := None |};
                 sock_rooms := ["r1"]; sock_userAgent := "agent";
                 sock_address := "10.0.0.1" |}
              {| su_id := "u1"; su_name := "Alice";
                 su_email := "alice@example.com";
                 su_sessionId := "session-1"; su_profileImage := None |})
    as (Hout & _ & Hdb & _);
    [vm_compute; reflexivity | reflexivity | vm_compute; reflexivity |].
  split; [exact Hout | exact Hdb].
Defined.

(** C7 as stated fails on what is returned: the first join of [r1] is
    answered with the participants, the messages, [hasMore] and
    [oldestTimestamp]; the second with none of them. *)
Lemma rejoin_returns_only_the_room :
  let first := last (received (ToSocket "c1") Example.joined) in
  let second :=
    last (received (ToSocket "c1")
            (on_joinRoom (H := fragment_json) 2000 "c1" "r1" false Example.joined)) in
  (first ≫= λ e, js_field "hasMore" e.2) = Some (JBool false)
  ∧ (first ≫= λ e, js_field "oldestTimestamp" e.2) = Some (JNum 1000)
  ∧ is_Some (first ≫= λ e, js_field "participants" e.2)
  ∧ is_Some (first ≫= λ e, js_field "messages" e.2)
  ∧ second = Some ("joinRoomSuccess", JObj [("roomId", JStr "r1")])
  ∧ (second ≫= λ e, js_field "participants" e.2) = None
  ∧ (second ≫= λ e, js_field "messages" e.2) = None
  ∧ (second ≫= λ e, js_field "hasMore" e.2) = None
  ∧ (second ≫= λ e, js_field "oldestTimestamp" e.2) = None
  ∧ first ≠ second.
Proof.
  intros first second.
  assert (second = Some ("joinRoomSuccess", JObj [("roomId", JStr "r1")])) as Hsecond
    by (vm_compute; reflexivity).
  assert ((first ≫= λ e, js_field "hasMore" e.2) = Some (JBool false)) as Hfirst
    by (vm_compute; reflexivity).
  split_and!; try (vm_compute; reflexivity); try (vm_compute; by eexists).
  intros Heq. rewrite Heq, Hsecond in Hfirst. discriminate Hfirst.
Qed.

(* ================================================================= *)
(** ** Forced logout *)

Section force_login_facts.
Context `{JSON} `{AuthVerifier}.

Lemma reject_frame c message s :
  outbox (reject c message s)
  = outbox s ++ [mkEmit (ToSocket c) "connect_error" (JObj [("message", JStr message)])]
  ∧ waiting (reject c message s) = waiting s
  ∧ sockets (reject c message s) = sockets s.
Proof. done. Qed.

(** A handshake that goes on adds events and at most its own socket. *)
Lemma authenticate_frame t h s :
  (∃ l, outbox (authenticate t h s) = outbox s ++ l)
  ∧ waiting (authenticate t h s) = waiting s
  ∧ ∀ c, c ≠ hs_socket h → sockets (authenticate t h s) !! c = sockets s !! c.
Proof.
  assert (∀ message x, outbox x = outbox s → waiting x = waiting s →
            sockets x = sockets s →
            (∃ l, outbox (reject (hs_socket h) message x) = outbox s ++ l)
            ∧ waiting (reject (hs_socket h) message x) = waiting s
            ∧ ∀ c, c ≠ hs_socket h →
                   sockets (reject (hs_socket h) message x) !! c = sockets s !! c)
    as Hreject.
  { intros message x Ho Hw Hs. split_and!.
    - eexists. unfold reject, emit. simpl. by rewrite Ho.
    - done.
    - intros c _. simpl. by rewrite Hs. }
  assert (∀ user x, outbox x = outbox s → waiting x = waiting s →
            sockets x = sockets s →
            (∃ l, outbox (on_connection h user x) = outbox s ++ l)
            ∧ waiting (on_connection h user x) = waiting s
            ∧ ∀ c, c ≠ hs_socket h →
                   sockets (on_connection h user x) !! c = sockets s !! c)
    as Hconnect.
  { intros user x Ho Hw Hs.
    destruct (on_connection_facts h user x) as (_ & Hs' & Ho' & Hw' & _).
    split_and!.
    - exists []. by rewrite Ho', Ho, app_nil_r.
    - by rewrite Hw'.
    - intros c Hc. by rewrite Hs', lookup_insert_ne, Hs. }
  unfold authenticate.
  destruct (negb (isValid _)); [by apply Hreject|].
  destruct (RedisClient.get t _ (redis s)) as [cached r].
  destruct (from_cache cached) as [user|].
  - destruct (truthy user).
    + destruct (socket_user user _); [by apply Hconnect | by apply Hreject].
    + cbn [db set_redis]. destruct (users (db s) !! hs_userId h);
        [|by apply Hreject].
      destruct (socket_user _ _); [by apply Hconnect | by apply Hreject].
  - cbn [db set_redis]. destruct (users (db s) !! hs_userId h);
      [|by apply Hreject].
    destruct (socket_user _ _); [by apply Hconnect | by apply Hreject].
Qed.

Lemma resume_all_frame t c (resumed : list (string * Handshake)) s :
  Forall (λ w, hs_socket w.2 ≠ c) resumed →
  (∃ l, outbox (foldl (λ s w, authenticate t w.2 s) s resumed) = outbox s ++ l)
  ∧ waiting (foldl (λ s w, authenticate t w.2 s) s resumed) = waiting s
  ∧ sockets (foldl (λ s w, authenticate t w.2 s) s resumed) !! c = sockets s !! c.
Proof.
  intros Hall. revert s. induction Hall as [|w resumed Hw Hall IH]; intros s.
  - split_and!; [exists []; by rewrite app_nil_r|done|done].
  - simpl. destruct (IH (authenticate t w.2 s)) as ([l Ho] & Hwait & Hs).
    destruct (authenticate_frame t w.2 s) as ([l0 Ho0] & Hwait0 & Hs0).
    split_and!.
    + exists (l0 ++ l). by rewrite Ho, Ho0, app_assoc.
    + by rewrite Hwait.
    + rewrite Hs. apply Hs0. auto.
Qed.

(** A socket that disconnects is gone, and what was emitted stays. *)
Lemma socket_disconnect_closes t c reason s sock :
  sockets s !! c = Some sock → Forall (λ w, hs_socket w.2 ≠ c) (waiting s) →
  sockets (socket_disconnect t c reason s) !! c = None
  ∧ ∃ l, outbox (socket_disconnect t c reason s) = outbox s ++ l.
Proof.
  intros Hsock Hwait. unfold socket_disconnect. rewrite Hsock.
  destruct (on_disconnect_frame t c sock reason
              (set_sockets (base.delete c (sockets s)) s))
    as (Hs & Hw & _ & _ & l & Ho & _).
  cbn [sockets waiting outbox set_sockets] in Hs, Hw, Ho.
  match goal with |- context [foldl ?f ?x ?r] =>
    destruct (resume_all_frame t c r x) as ([l' Ho'] & _ & Hs') end.
  { rewrite Hw. rewrite Forall_forall in Hwait |- *.
    intros w Hin. apply list_elem_of_filter in Hin as [_ Hin]. auto. }
  cbn [sockets outbox set_waiting] in Ho', Hs'.
  split.
  - rewrite Hs', Hs. apply lookup_delete_eq.
  - exists (l ++ l'). by rewrite Ho', Ho, app_assoc.
Qed.
End force_login_facts.

Section force_login_cases.
Context `{JSON} `{AuthVerifier}.

Lemma on_force_login_same_user now c token s sock user :
  sockets s !! c = Some sock → sock_user sock = Some user → su_id user ≠ "" →
  jwt_verify token = JwtPayload (Some (su_id user)) →
  on_force_login now c token s
  = socket_disconnect now c server_namespace_disconnect
      (emit (ToSocket c) "session_ended"
         (JObj [("reason", JStr "force_logout");
                ("message", JStr "다른 기기에서 로그인하여 현재 세션이 종료되었습니다.")]) s).
Proof.
  intros Hc Hu Hid Hjwt. unfold on_force_login. rewrite Hc, Hu, Hjwt.
  by rewrite truthy_string, bool_decide_eq_true_2.
Qed.

Lemma on_force_login_other_token now c token s sock user :
  sockets s !! c = Some sock → sock_user sock = Some user →
  jwt_verify token ≠ JwtPayload (Some (su_id user)) →
  on_force_login now c token s
  = emit (ToSocket c) "error"
      (JObj [("message", JStr "세션 종료 중 오류가 발생했습니다.")]) s.
Proof.
  intros Hc Hu Hjwt. unfold on_force_login. rewrite Hc, Hu.
  destruct (jwt_verify token) as [name|[uid|]]; try done.
  destruct (decide (uid = su_id user)) as [->|Hother]; [done|].
  rewrite (bool_decide_eq_false_2 _ Hother). by rewrite orb_true_r.
Qed.
End force_login_cases.

(** C10.  On a connected socket [c]:
    - without authenticated user, [force_login] does nothing at all;
    - with the user [u], a token that verifies and decodes to [u] ends the
      session: [session_ended] with reason [force_logout] is the next event
      emitted, to [c], and [c] is disconnected;
    - any other token (one that does not verify, or decodes to no user or to
      another user) yields one [error] event to [c] and changes nothing else:
      the socket, the registries, the store and the cache are as before;
    - so the session is ended exactly when the token decodes to [u].
    The user identifier of a session is not empty, and no handshake in
    progress carries the identifier of the connected socket [c]. *)
Theorem force_login_same_user_only `{JSON} `{AuthVerifier}
    (now : Z) (c token : string) (s : Server) (sock : Socket) :
  sockets s !! c = Some sock →
  let s' := on_force_login now c token s in
  (sock_user sock = None → s' = s)
  ∧ (∀ user, sock_user sock = Some user → su_id user ≠ "" →
       Forall (λ w, hs_socket w.2 ≠ c) (waiting s) →
       (jwt_verify token = JwtPayload (Some (su_id user)) →
          (∃ l, outbox s'
                = outbox s
                  ++ mkEmit (ToSocket c) "session_ended"
                       (JObj [("reason", JStr "force_logout");
                              ("message", JStr "다른 기기에서 로그인하여 현재 세션이 종료되었습니다.")])
                     :: l)
          ∧ sockets s' !! c = None)
       ∧ (jwt_verify token ≠ JwtPayload (Some (su_id user)) →
          s' = emit (ToSocket c) "error"
                 (JObj [("message", JStr "세션 종료 중 오류가 발생했습니다.")]) s)
       ∧ (sockets s' !! c = None ↔
          jwt_verify token = JwtPayload (Some (su_id user)))).
Proof.
  intros Hc s'. subst s'. split.
  - intros Hnone. unfold on_force_login. by rewrite Hc, Hnone.
  - intros user Hu Hid Hwait.
    assert (jwt_verify token = JwtPayload (Some (su_id user)) →
            (∃ l, outbox (on_force_login now c token s)
                  = outbox s
                    ++ mkEmit (ToSocket c) "session_ended"
                         (JObj [("reason", JStr "force_logout");
                                ("message", JStr "다른 기기에서 로그인하여 현재 세션이 종료되었습니다.")])
                       :: l)
            ∧ sockets (on_force_login now c token s) !! c = None) as Hok.
    { intros Hjwt.
      rewrite (on_force_login_same_user _ _ _ _ _ _ Hc Hu Hid Hjwt).
      match goal with |- context [socket_disconnect now c _ ?x] =>
        destruct (socket_disconnect_closes now c server_namespace_disconnect x sock)
          as (Hclosed & l & Hout) end; [done|done|].
      split; [|done]. exists l. rewrite Hout. unfold emit. simpl.
      by rewrite <- app_assoc. }
    split_and!; [exact Hok | intros Hjwt; exact (on_force_login_other_token _ _ _ _ _ _ Hc Hu Hjwt) |].
    split; [|intros Hjwt; by apply Hok].
    intros Hclosed.
    assert (jwt_verify token = JwtPayload (Some (su_id user))
            ∨ jwt_verify token ≠ JwtPayload (Some (su_id user))) as [Hjwt|Hjwt].
    { destruct (jwt_verify token) as [name|[uid|]]; [by right| |by right].
      destruct (decide (uid = su_id user)) as [->|Hother]; [by left|].
      right. congruence. }
    { done. }
    rewrite (on_force_login_other_token _ _ _ _ _ _ Hc Hu Hjwt) in Hclosed.
    simpl in Hclosed. congruence.
Qed.

(** The first session of [u1] sends [force_login] with its own token: the
    session is told and closed; with the token of [u2] it gets the error
    only. *)
Lemma force_login_same_user_only_witness :
  let own := on_force_login (H := fragment_json) (H0 := Example.auth)
               3000 "c1" "jwt:u1" Example.joined in
  let other := on_force_login (H := fragment_json) (H0 := Example.auth)
                 3000 "c1" "jwt:u2" Example.joined in
  sockets own !! "c1" = None
  ∧ other = emit (ToSocket "c1") "error"
              (JObj [("message", JStr "세션 종료 중 오류가 발생했습니다.")])
              Example.joined.
Proof.
  intros own other.
  pose (user := {| su_id := "u1"; su_name := "Alice";
                   su_email := "alice@example.com";
                   su_sessionId := "session-1"; su_profileImage := None |}).
  pose (sock := {| sock_user := Some user; sock_rooms := ["r1"];
                   sock_userAgent := "agent"; sock_address := "10.0.0.1" |}).
  assert (sockets Example.joined !! "c1" = Some sock) as Hc
    by (vm_compute; reflexivity).
  assert (Forall (λ w : string * Handshake, hs_socket w.2 ≠ "c1")
            (waiting Example.joined)) as Hwait
    by (apply (bool_decide_unpack _); vm_compute; exact I).
  split.
  - destruct (force_login_same_user_only (H := fragment_json)
                (H0 := Example.auth) 3000 "c1" "jwt:u1" Example.joined sock Hc)
      as [_ Hsome].
    destruct (Hsome user eq_refl ltac:(discriminate) Hwait) as (_ & _ & Hiff).
    apply Hiff. vm_compute. reflexivity.
  - destruct (force_login_same_user_only (H := fragment_json)
                (H0 := Example.auth) 3000 "c1" "jwt:u2" Example.joined sock Hc)
      as [_ Hsome].
    destruct (Hsome user eq_refl ltac:(discriminate) Hwait) as (_ & Hbad & _).
    apply Hbad. vm_compute. discriminate.
Defined.

(* ================================================================= *)
(** ** The events of one AI answer *)

Section ai_stream.
Variables (roomId aiType sid : string).

Lemma has_sessionId_first t ev rest :
  has_sessionId sid (mkEmit t ev (JObj (("sessionId", JStr sid) :: rest))) = true.
Proof.
  unfold has_sessionId. cbn [emit_payload js_field assoc_field].
  rewrite decide_True by done. by apply bool_decide_eq_true_2.
Qed.

Lemma ai_events_emit t ev rest s :
  ai_events sid (emit t ev (JObj (("sessionId", JStr sid) :: rest)) s)
  = ai_events sid s ++ [ev].
Proof.
  unfold ai_events, emit. cbn [outbox set_outbox].
  rewrite filter_app, fmap_app. f_equal.
  rewrite filter_cons, decide_True by apply has_sessionId_first. done.
Qed.

(** What one step adds to the events of [sid], and what it leaves of the
    session. *)
Lemma callback_step st cb :
  let st' := callback roomId aiType sid st cb in
  let live x := LimitedMap.lookup sid (streamingSessions x) in
  (match cb.2 with Meanwhile _ => True | _ => live st.2 = None → live st'.2 = None end)
  ∧ match cb.2 with
    | Chunk _ =>
        (is_Some (live st.2) ∧ is_Some (live st'.2)
         ∧ ai_events sid st'.2 = ai_events sid st.2 ++ ["aiMessageChunk"])
        ∨ (live st.2 = None ∧ ai_events sid st'.2 = ai_events sid st.2)
    | Complete _ => st'.2 = st.2
    | Error =>
        live st'.2 = None
        ∧ ai_events sid st'.2 = ai_events sid st.2 ++ ["aiMessageError"]
    | Settled _ ok =>
        (ai_events sid st'.2 = ai_events sid st.2
         ∧ (live st'.2 = live st.2 ∨ live st'.2 = None))
        ∨ (ok = true ∧ live st'.2 = None
           ∧ ai_events sid st'.2 = ai_events sid st.2 ++ ["aiMessageComplete"])
    | Meanwhile f => st'.2 = f st.2
    end.
Proof.
  intros st' live. subst st' live. destruct st as [pending s].
  destruct cb as [t [chunk|final| |i ok|f]]; unfold callback; cbn [fst snd];
    [| | | |done].
  - unfold onChunk, LimitedMap.get.
    destruct (LimitedMap.lookup sid (streamingSessions s)) as [session|] eqn:Hl.
    + cbn [truthy]. cbn -[emit LimitedMap.mutate].
      split; [done|]. left. split; [done|].
      rewrite ai_events_emit. split; [|done].
      unfold emit. cbn [streamingSessions set_outbox set_streamingSessions].
      rewrite lookup_mutate, decide_True by done.
      unfold LimitedMap.lookup in *. cbn. unfold LimitedMap.lookup in Hl.
      rewrite Hl. done.
    + cbn. split; [done|]. right. done.
  - done.
  - unfold onError. cbn [streamingSessions set_streamingSessions].
    rewrite lookup_delete, decide_True by done.
    split; [done|]. split; [done|].
    change (ai_events sid (set_streamingSessions ?m ?x)) with (ai_events sid x).
    by rewrite ai_events_emit.
  - unfold onComplete_settle.
    destruct (pending !! i) as [[timestamp final|aiMessage]|]; cbn [fst snd].
    + destruct ok.
      * destruct (save_message _ _ _ _ _ _ _ _) as [aiMessage d]. cbn [snd].
        split; [done|]. left. split; [done|by left].
      * cbn [snd streamingSessions set_streamingSessions].
        rewrite lookup_delete, decide_True by done.
        split; [done|]. left. split; [done|by right].
    + destruct ok.
      * cbn [snd streamingSessions set_streamingSessions].
        rewrite lookup_delete, decide_True by done.
        split; [done|]. right. split; [done|]. split; [done|].
        change (ai_events sid (set_streamingSessions ?m ?x)) with (ai_events sid x).
        by rewrite ai_events_emit.
      * cbn [snd streamingSessions set_streamingSessions].
        rewrite lookup_delete, decide_True by done.
        split; [done|]. left. split; [done|by right].
    + split; [done|]. left. split; [done|by left].
Qed.

Lemma callbacks_events cbs : ∀ st,
  session_left_alone roomId aiType sid cbs st →
  ∃ (n : nat) (tail : list string),
    ai_events sid (foldl (callback roomId aiType sid) st cbs).2
    = ai_events sid st.2 ++ replicate n "aiMessageChunk" ++ tail
    ∧ Forall (λ e, e = "aiMessageComplete" ∨ e = "aiMessageError") tail
    ∧ (LimitedMap.lookup sid (streamingSessions st.2) = None → n = 0%nat)
    ∧ (forallb (λ x, negb (is_resolved x)) cbs = true →
       "aiMessageComplete" ∉ tail)
    ∧ (nothing_resolves_after_error cbs = true →
       ∀ e1 e2, tail = e1 ++ "aiMessageError" :: e2 →
                "aiMessageComplete" ∉ e2).
Proof.
  induction cbs as [|cb cbs IH]; intros st Halone.
  { exists 0%nat, []. cbn. rewrite app_nil_r.
    split_and!; [done|done|done|by intros _ ?%elem_of_nil|].
    intros _ [|??] ? [=]. }
  cbn [foldl]. cbn [session_left_alone] in Halone. destruct Halone as [Hf Halone].
  destruct (IH (callback roomId aiType sid st cb) Halone)
    as (n & tail & Hev & Hall & Hdead & Hnc & Hord).
  pose proof (callback_step st cb) as [Hkeep Hstep]. cbn zeta in Hkeep, Hstep.
  destruct cb as [t [chunk|final| |i ok|f]]; cbn [snd] in Hstep, Hkeep, Hf.
  - (* onChunk *)
    destruct Hstep as [(Hlive & _ & Hstep)|[Hnone Hstep]].
    + exists (S n), tail. rewrite Hev, Hstep, <- app_assoc.
      split_and!; [done|done| |exact Hnc|].
      * intros Hnone. rewrite Hnone in Hlive. by destruct Hlive.
      * cbn [nothing_resolves_after_error is_error snd]. exact Hord.
    + exists n, tail. rewrite Hev, Hstep.
      split_and!; [done|done|auto|exact Hnc|].
      cbn [nothing_resolves_after_error is_error snd]. exact Hord.
  - (* onComplete is invoked *)
    exists n, tail. rewrite Hev, Hstep.
    split_and!; [done|done| |exact Hnc|].
    + intros Hnone. apply Hdead. by rewrite Hstep.
    + cbn [nothing_resolves_after_error is_error snd]. exact Hord.
  - (* onError *)
    destruct Hstep as [Hnone Hstep]. rewrite (Hdead Hnone) in Hev.
    cbn [replicate app] in Hev.
    exists 0%nat, ("aiMessageError" :: tail).
    rewrite Hev, Hstep, <- app_assoc.
    split_and!; [done|by constructor; [right|]|done| |].
    + cbn [forallb is_resolved snd negb andb]. intros Hc.
      rewrite not_elem_of_cons. split; [done|by apply Hnc].
    + cbn [nothing_resolves_after_error is_error snd].
      intros [Hc1 Hc2]%andb_true_iff e1 e2 Heq.
      destruct e1 as [|x e1].
      * injection Heq as <-. by apply Hnc.
      * injection Heq as _ Heq. by apply (Hord Hc2 e1 e2).
  - (* an await of onComplete settles *)
    destruct Hstep as [[Hstep Hlive]|(-> & Hnone & Hstep)].
    + exists n, tail. rewrite Hev, Hstep.
      split_and!; [done|done| | |].
      * intros Hnone. apply Hdead. by apply Hkeep.
      * cbn [forallb]. intros [_ Hc]%andb_true_iff. by apply Hnc.
      * cbn [nothing_resolves_after_error is_error snd andb]. exact Hord.
    + rewrite (Hdead Hnone) in Hev. cbn [replicate app] in Hev.
      exists 0%nat, ("aiMessageComplete" :: tail).
      rewrite Hev, Hstep, <- app_assoc.
      split_and!; [done|by constructor; [left|]|done| |].
      * cbn [forallb is_resolved snd negb andb]. done.
      * cbn [nothing_resolves_after_error is_error snd andb].
        intros Hc e1 e2 Heq.
        destruct e1 as [|x e1]; [by injection Heq|].
        injection Heq as _ Heq. by apply (Hord Hc e1 e2).
  - (* something else happens *)
    destruct Hf as [Hsame Hstay]. rewrite Hstep in Hev, Hdead.
    exists n, tail. rewrite Hev, Hsame.
    split_and!; [done|done|auto|exact Hnc|].
    cbn [nothing_resolves_after_error is_error snd andb]. exact Hord.
Qed.
End ai_stream.

(** C8, as amended.  [handleAIResponse] for a session id [sid] that no
    earlier event carries, with any sequence of callbacks of the generator
    and of awaits of [onComplete] that settle, among other things that
    happen meanwhile and leave the session of [sid] alone: the events with
    [sid] are one [aiMessageStart], then some [aiMessageChunk]s, then only
    [aiMessageComplete] and [aiMessageError] events; and no
    [aiMessageComplete] comes after an [aiMessageError] provided no save and
    no populate of an [onComplete] resolves after an [onError]. *)
Theorem ai_events_start_chunks_then_end (now : Z) (roomId aiType : string)
    (cbs : list (Z * Callback)) (s : Server) :
  let sid := AI_sessionId roomId aiType now in
  ai_events sid s = [] →
  session_left_alone roomId aiType sid cbs
    ([], handleAIResponse_start now roomId aiType s) →
  ∃ (n : nat) (tail : list string),
    ai_events sid (handleAIResponse now roomId aiType cbs s)
    = "aiMessageStart" :: replicate n "aiMessageChunk" ++ tail
    ∧ Forall (λ e, e = "aiMessageComplete" ∨ e = "aiMessageError") tail
    ∧ (nothing_resolves_after_error cbs = true →
       ∀ e1 e2, tail = e1 ++ "aiMessageError" :: e2 →
                "aiMessageComplete" ∉ e2).
Proof.
  intros sid Hfresh Halone. unfold handleAIResponse. fold sid.
  destruct (callbacks_events roomId aiType sid cbs
              ([], handleAIResponse_start now roomId aiType s) Halone)
    as (n & tail & Hev & Hall & _ & _ & Hord).
  exists n, tail. split; [|done].
  rewrite Hev. cbn [snd]. unfold handleAIResponse_start. fold sid. cbn zeta.
  rewrite ai_events_emit.
  change (ai_events sid (set_streamingSessions ?m ?x)) with (ai_events sid x).
  by rewrite Hfresh.
Qed.

(** In room [r1] the generator sends two chunks and completes, a message
    of [u1] coming between the chunks; the message of the answer is saved
    and populated. *)
Lemma ai_events_start_chunks_then_end_witness :
  ∃ (n : nat) (tail : list string),
    ai_events (AI_sessionId "r1" "wayneAI" 3000)
      (handleAIResponse 3000 "r1" "wayneAI"
         [(3100, Chunk "Hel");
          (3150, Meanwhile (on_chatMessage 3150 "c1" "r1" "thanks" None None None));
          (3200, Chunk "lo"); (3300, Complete "Hello");
          (3310, Settled 0 true); (3320, Settled 0 true)]
         Example.joined)
    = "aiMessageStart" :: replicate n "aiMessageChunk" ++ tail
    ∧ ∀ e1 e2, tail = e1 ++ "aiMessageError" :: e2 → "aiMessageComplete" ∉ e2.
Proof.
  destruct (ai_events_start_chunks_then_end 3000 "r1" "wayneAI"
              [(3100, Chunk "Hel");
               (3150, Meanwhile (on_chatMessage 3150 "c1" "r1" "thanks" None None None));
               (3200, Chunk "lo"); (3300, Complete "Hello");
               (3310, Settled 0 true); (3320, Settled 0 true)] Example.joined)
    as (n & tail & Hev & _ & Hord).
  - vm_compute. reflexivity.
  - vm_compute. repeat split. discriminate.
  - exists n, tail. split; [exact Hev | exact (Hord eq_refl)].
Defined.

(** C8 as stated fails twice.  The generator calls [onComplete] and then
    [onError]: [onError] emits at once, [onComplete] after its two awaits,
    and the room sees [aiMessageComplete] after [aiMessageError] for the one
    session.  And a message that mentions one AI twice starts two answers
    in the same millisecond, whose session ids are the same: that session
    has two [aiMessageStart]. *)
Lemma complete_after_error_and_two_starts :
  ai_events (AI_sessionId "r1" "wayneAI" 3000)
    (handleAIResponse 3000 "r1" "wayneAI"
       [(3100, Complete "done"); (3100, Error);
        (3110, Settled 0 true); (3120, Settled 0 true)] Example.joined)
  = ["aiMessageStart"; "aiMessageError"; "aiMessageComplete"]
  ∧ ai_events (AI_sessionId "r1" "wayneAI" 3000)
      (on_chatMessage 3000 "c1" "r1" "@wayneAI @wayneAI hi" None None None
         Example.joined)
    = ["aiMessageStart"; "aiMessageStart"].
Proof. split; vm_compute; reflexivity. Qed.

(* ================================================================= *)
(** * Further properties of the registries, the cache client and the handlers *)

(* ================================================================= *)
(** ** The bounded registry: reads after writes *)

Section registry_more.
Import LimitedMap LimitedMapFacts.
Context {K V : Type} `{EqDecision K} `{Truthy V}.
Implicit Types (m : t K V) (k : K) (v : V).

Lemma Map_set_present_length (l : list (K * V)) k v :
  k ∈ l.*1 → length (Map_set k v l) = length l.
Proof.
  intros Hin. rewrite <- (length_fmap fst (Map_set k v l)), Map_set_keys.
  rewrite decide_True by done. apply length_fmap.
Qed.

Lemma hit_miss_get m k :
  (hitCount (get k m).2 + missCount (get k m).2 = S (hitCount m + missCount m))%nat.
Proof. unfold get; simpl. destruct (truthy _); simpl; lia. Qed.

Lemma hit_miss_set m k v :
  hitCount (set k v m) = hitCount m ∧ missCount (set k v m) = missCount m.
Proof. unfold set. case_decide; [destruct (oldestKey m)|]; done. Qed.

(** X1.  What a read finds after [set(k, v)]: [v] under [k]; nothing under the
    oldest key when the registry was full; what was there under every other
    key. *)
Theorem lookup_after_set m k k' v :
  lookup k' (set k v m)
  = if decide (k = k') then Some v
    else if decide ((maxSize m ≤ size m)%nat ∧ oldestKey m = Some k') then None
    else lookup k' m.
Proof.
  unfold lookup, set.
  destruct (decide (maxSize m ≤ size m)%nat) as [Hfull|Hfree].
  - destruct (oldestKey m) as [o|] eqn:Ho; simpl; rewrite Map_get_set.
    + destruct (decide (k = k')) as [|Hk]; [done|].
      rewrite Map_get_delete.
      destruct (decide (o = k')) as [->|Hne].
      * by rewrite decide_True.
      * rewrite decide_False; [done|]. intros [_ [=]]. done.
    + destruct (decide (k = k')) as [|Hk]; [done|].
      rewrite decide_False; [done|]. intros [_ [=]].
  - simpl. rewrite Map_get_set.
    destruct (decide (k = k')) as [|Hk]; [done|].
    rewrite decide_False; [done|]. intros [? _]. done.
Qed.

(** X2.  [set] of a key that is present, in a full registry, still evicts the
    oldest entry: the registry ends one entry short of full. *)
Theorem overwrite_in_full_registry_evicts_oldest m k v o :
  wf m → (maxSize m ≤ size m)%nat → oldestKey m = Some o → o ≠ k →
  is_Some (lookup k m) →
  size (set k v m) = (size m - 1)%nat
  ∧ lookup o (set k v m) = None
  ∧ lookup k (set k v m) = Some v.
Proof.
  intros Hwf Hfull Ho Hne Hin. split_and!.
  - unfold set. rewrite decide_True, Ho by done.
    destruct m as [[|[k0 v0] l] n h ms]; [done|].
    unfold oldestKey, keys in Ho. simpl in Ho. injection Ho as ->.
    unfold delete, size. cbn [entries with_entries].
    rewrite Map_delete_oldest by exact Hwf.
    rewrite Map_set_present_length; [simpl; lia|].
    unfold lookup in Hin. cbn [entries Map_get] in Hin.
    rewrite decide_False in Hin by done.
    destruct (decide (k ∈ l.*1)) as [|Hout]; [done|].
    apply Map_get_None in Hout. rewrite Hout in Hin. by destruct Hin.
  - unfold lookup, set. rewrite decide_True, Ho by done. simpl.
    rewrite Map_get_set, decide_False by done.
    by rewrite Map_get_delete, decide_True.
  - apply lookup_set_eq.
Qed.

(** X3.  The two counters count the reads: after any operations their sum has
    grown by the number of [get]s. *)
Theorem hit_and_miss_count_the_reads (ops : list (op K V)) m :
  (hitCount (run ops m) + missCount (run ops m)
   = hitCount m + missCount m
     + length (filter (λ o, match o with OpGet _ => true | _ => false end = true) ops))%nat.
Proof.
  revert m. induction ops as [|o ops IH]; intros m; [simpl; lia|].
  unfold run in *. cbn [foldl]. rewrite IH.
  destruct o as [k v|k|k|k|]; cbn [apply].
  - destruct (hit_miss_set m k v) as [-> ->].
    rewrite filter_cons_False by done. lia.
  - rewrite filter_cons_True by done. pose proof (hit_miss_get m k). cbn [length]. lia.
  - rewrite filter_cons_False by done. lia.
  - rewrite filter_cons_False by done. cbn [delete with_entries hitCount missCount]. lia.
  - rewrite filter_cons_False by done. cbn [clear with_entries hitCount missCount]. lia.
Qed.
End registry_more.

(** A registry of two slots holding [a] and [b]: writing [b] again drops
    [a]. *)
Lemma overwrite_in_full_registry_evicts_oldest_witness :
  let m := LimitedMap.run [LimitedMap.OpSet "a" 1; LimitedMap.OpSet "b" 2]
             (LimitedMap.create 2) in
  LimitedMap.size (LimitedMap.set "b" 5 m) = 1%nat
  ∧ LimitedMap.lookup "a" (LimitedMap.set "b" 5 m) = None
  ∧ LimitedMap.lookup "b" (LimitedMap.set "b" 5 m) = Some 5.
Proof.
  intros m.
  apply (overwrite_in_full_registry_evicts_oldest m "b" 5 "a").
  - apply LimitedMapFacts.wf_run, LimitedMapFacts.wf_create.
  - vm_compute. lia.
  - reflexivity.
  - discriminate.
  - vm_compute. by eexists.
Defined.

(* ================================================================= *)
(** ** The in-memory cache *)

Section mock_cache.
Context `{JSON}.

Lemma truthy_Z (n : Z) : n ≠ 0 → truthy n = true.
Proof. intros Hn. unfold truthy, Z_truthy. by rewrite decide_False. Qed.

(** X4.  [setEx] then [get] on the in-memory cache: the text of the value until
    [seconds] have passed, then [null], the entry being removed by that
    read. *)
Theorem mock_setEx_then_get (now t : Z) (key : string) (seconds : Z)
    (value : JsValue) (st : gmap string Item) :
  seconds ≠ 0 → now + seconds * 1000 ≠ 0 →
  let st' := MockRedisClient.setEx now key seconds value st in
  MockRedisClient.get t key st'
  = if bool_decide (now + seconds * 1000 < t)
    then (None, delete key st)
    else (Some (MockRedisClient.stringValue value), st').
Proof.
  intros Hs He st'. subst st'.
  unfold MockRedisClient.get, MockRedisClient.setEx, MockRedisClient.set.
  rewrite lookup_insert_eq. cbn [item_expires item_value].
  replace (truthy (Some seconds)) with true by (symmetry; by apply truthy_Z).
  cbn [fmap option_fmap option_map default].
  replace (truthy (Some (now + seconds * 1000))) with true
    by (symmetry; by apply truthy_Z).
  cbn [andb]. destruct (bool_decide _); [|done].
  by rewrite delete_insert_eq.
Qed.

(** X5.  [setEx] with zero seconds: [options.ttl] is falsy and the entry gets no
    expiry, so that every later read finds it. *)
Theorem mock_setEx_zero_never_expires (now t : Z) (key : string)
    (value : JsValue) (st : gmap string Item) :
  let st' := MockRedisClient.setEx now key 0 value st in
  MockRedisClient.get t key st' = (Some (MockRedisClient.stringValue value), st').
Proof.
  intros st'. subst st'.
  unfold MockRedisClient.get, MockRedisClient.setEx, MockRedisClient.set.
  by rewrite lookup_insert_eq.
Qed.

(** X6.  [incr] of an entry that has expired starts again from 1 and keeps the
    expiry that is over: the next read finds nothing and removes it. *)
Theorem mock_incr_of_expired_entry (now : Z) (key : string)
    (st : gmap string Item) (item : Item) (e : Z) :
  st !! key = Some item → item_expires item = Some e → e ≠ 0 → e < now →
  let '(reply, st') := MockRedisClient.incr now key st in
  reply = Returned (Int 1)
  ∧ st' !! key = Some {| item_value := "1"; item_expires := Some e |}
  ∧ MockRedisClient.get now key st' = (None, delete key st).
Proof.
  intros Hkey Hexp He Hlt. unfold MockRedisClient.incr. rewrite Hkey, Hexp.
  replace (truthy (Some e)) with true by (symmetry; by apply truthy_Z).
  cbn [negb orb default id]. rewrite bool_decide_eq_false_2 by lia.
  split_and!; [done|by rewrite lookup_insert_eq|].
  unfold MockRedisClient.get. rewrite lookup_insert_eq.
  cbn [item_expires default id].
  replace (truthy (Some e)) with true by (symmetry; by apply truthy_Z).
  rewrite bool_decide_eq_true_2 by lia. cbn [andb].
  by rewrite delete_insert_eq.
Qed.
End mock_cache.

(** A minute of life, read after 59 s and after 61 s. *)
Lemma mock_setEx_then_get_witness :
  let st' := MockRedisClient.setEx (H := fragment_json) 1000 "k" 60 (JStr "v") ∅ in
  MockRedisClient.get 60000 "k" st' = (Some "v", st')
  ∧ MockRedisClient.get 62000 "k" st' = (None, ∅).
Proof.
  intros st'. split.
  - apply (mock_setEx_then_get (H := fragment_json) 1000 60000 "k" 60 (JStr "v") ∅);
      lia.
  - pose proof (mock_setEx_then_get (H := fragment_json) 1000 62000 "k" 60 (JStr "v") ∅
                  ltac:(lia) ltac:(lia)) as Hget.
    cbn zeta in Hget. subst st'. rewrite Hget. reflexivity.
Defined.

(** A counter that expired at 5 s, incremented at 6 s. *)
Lemma mock_incr_of_expired_entry_witness :
  let st : gmap string Item :=
    {[ "n" := {| item_value := "7"; item_expires := Some 5000 |} ]} in
  (MockRedisClient.incr 6000 "n" st).1 = Returned (Int 1)
  ∧ MockRedisClient.get 6000 "n" (MockRedisClient.incr 6000 "n" st).2 = (None, ∅).
Proof.
  intros st.
  pose proof (mock_incr_of_expired_entry 6000 "n" st
                {| item_value := "7"; item_expires := Some 5000 |} 5000
                eq_refl eq_refl ltac:(lia) ltac:(lia)) as Hincr.
  destruct (MockRedisClient.incr 6000 "n" st) as [reply st'].
  destruct Hincr as (Hreply & _ & Hget). split; [exact Hreply|].
  cbn [snd]. rewrite Hget. reflexivity.
Defined.

(* ================================================================= *)
(** ** The cache client between the server and its in-memory stand-in *)

Section client_modes.
Context `{JSON}.
Import RedisClient.

Lemma with_mock_modes (m : gmap string Item) c :
  useMock (with_mock m c) = useMock c
  ∧ server (with_mock m c) = server c
  ∧ faults (with_mock m c) = faults c.
Proof. done. Qed.

Lemma mock_setEx_get_text (now t1 : Z) (key : string) (seconds : Z)
    (value : JsValue) (st : gmap string Item) :
  0 ≤ now → 0 < seconds → t1 ≤ now + seconds * 1000 →
  (MockRedisClient.get t1 key (MockRedisClient.setEx now key seconds value st)).1
  = Some (MockRedisClient.stringValue value).
Proof.
  intros Hnow Hpos Ht.
  unfold MockRedisClient.get, MockRedisClient.setEx, MockRedisClient.set.
  rewrite lookup_insert_eq. cbn [item_expires item_value].
  replace (truthy (Some seconds)) with true by (symmetry; apply truthy_Z; lia).
  cbn [fmap option_fmap option_map default id].
  replace (truthy (Some (now + seconds * 1000))) with true
    by (symmetry; apply truthy_Z; lia).
  by rewrite bool_decide_eq_false_2 by lia.
Qed.

(** X7.  Once the client uses the in-memory cache it stays there: no command
    reaches the server, reads the fault tape or leaves that mode. *)
Theorem mock_mode_is_permanent (now : Z) (key : string) (seconds : Z)
    (value : JsValue) (ttl EX : option Z) (c : t) :
  useMock c = true →
  Forall (λ c', useMock c' = true ∧ server c' = server c ∧ faults c' = faults c)
    [(get now key c).2; setEx now key seconds value c; set now key value ttl EX c;
     (del now key c).2; (expire now key seconds c).2; (incr now key c).2].
Proof.
  intros Hmock. repeat apply Forall_cons_2; [..|apply Forall_nil_2].
  - unfold get. rewrite Hmock. by destruct (MockRedisClient.get _ _ _).
  - unfold setEx. by rewrite Hmock.
  - unfold set. by rewrite Hmock.
  - unfold del. rewrite Hmock. by destruct (MockRedisClient.del _ _).
  - unfold expire. rewrite Hmock. by destruct (MockRedisClient.expire _ _ _ _).
  - unfold incr. rewrite Hmock.
    by destruct (MockRedisClient.incr _ _ _) as [[?|] ?].
Qed.

(** X8.  A read that fails on the way to the server answers [null] whatever the
    server holds, and leaves the client on an empty in-memory cache. *)
Theorem get_failure_falls_back_to_empty_cache (now : Z) (key : string) (c : t)
    (rest : list bool) :
  useMock c = false → faults c = true :: rest →
  get now key c
  = (JNull, {| useMock := true; mock := ∅; server := server c; faults := rest |}).
Proof.
  intros Hreal Hfault. unfold get, next_fault. rewrite Hreal, Hfault.
  unfold fallback, MockRedisClient.get. cbn [mock]. by rewrite lookup_empty.
Qed.

(** X9.  [incr] in mock mode of a key that is not there: the mock throws (it
    reads [item.expires] of [undefined]), the client answers 1 and nothing
    is stored, so that the answer is 1 again the next time. *)
Theorem incr_in_mock_mode_stays_at_one (now : Z) (key : string) (c : t) :
  useMock c = true → mock c !! key = None →
  incr now key c = (Returned (Int 1), c).
Proof.
  intros Hmock Hkey. unfold incr, MockRedisClient.incr. rewrite Hmock, Hkey.
  destruct c; simpl in *. by subst.
Qed.

(** X10.  [setEx] of a text, then [get] within its life.  Through the server the
    client decodes what it reads and gives the decoded value (the text
    itself when it does not decode); in mock mode it gives the text. *)
Theorem setEx_then_get_by_mode (now t1 : Z) (key : string) (seconds : Z)
    (text : string) (c : t) :
  0 ≤ now → 0 < seconds → now ≤ t1 < now + seconds * 1000 → text ≠ "" →
  (useMock c = false → faults c = [] →
     (get t1 key (setEx now key seconds (JStr text) c)).1
     = match JSON_parse text with Some v => v | None => JStr text end)
  ∧ (useMock c = true →
     (get t1 key (setEx now key seconds (JStr text) c)).1 = JStr text).
Proof.
  intros Hnow Hpos Ht Htext. split.
  - intros Hreal Hfaults.
    assert (setEx now key seconds (JStr text) c
            = with_server (RedisServer.SETEX now key seconds text (server c)) c)
      as ->.
    { unfold setEx, next_fault. by rewrite Hreal, Hfaults. }
    rewrite get_from_server; [|done|unfold next_fault; cbn; by rewrite Hfaults].
    cbn [fst server with_server].
    unfold RedisServer.GET, RedisServer.find, RedisServer.SETEX.
    rewrite lookup_insert_eq. cbn. unfold RedisServer.live. cbn.
    rewrite bool_decide_eq_true_2 by lia. cbn.
    replace (truthy text) with true by (symmetry; by apply truthy_string).
    done.
  - intros Hmock.
    assert (setEx now key seconds (JStr text) c
            = with_mock (MockRedisClient.setEx now key seconds (JStr text) (mock c)) c)
      as ->.
    { unfold setEx. by rewrite Hmock. }
    rewrite get_from_mock by done. cbn [fst mock with_mock].
    rewrite mock_setEx_get_text by lia. done.
Qed.

(** X11.  [set] with the option [EX] alone: through the server the entry expires
    after [EX] seconds; the in-memory cache reads [options.ttl] only and
    keeps the entry for ever. *)
Theorem set_with_EX_expires_on_the_server_only (now t1 : Z) (key text : string)
    (seconds : Z) (c : t) :
  0 < seconds → now + seconds * 1000 ≤ t1 → text ≠ "" →
  (useMock c = false → faults c = [] →
     (get t1 key (set now key (JStr text) None (Some seconds) c)).1 = JNull)
  ∧ (useMock c = true →
     (get t1 key (set now key (JStr text) None (Some seconds) c)).1 = JStr text).
Proof.
  intros Hpos Ht Htext. split.
  - intros Hreal Hfaults.
    assert (set now key (JStr text) None (Some seconds) c
            = with_server (RedisServer.SETEX now key seconds text (server c)) c)
      as ->.
    { unfold set, next_fault. rewrite Hreal, Hfaults.
      replace (truthy (Some seconds)) with true
        by (symmetry; apply truthy_Z; lia).
      done. }
    rewrite get_from_server; [|done|unfold next_fault; cbn; by rewrite Hfaults].
    cbn [fst server with_server].
    unfold RedisServer.GET, RedisServer.find, RedisServer.SETEX.
    rewrite lookup_insert_eq. cbn. unfold RedisServer.live. cbn.
    rewrite bool_decide_eq_false_2 by lia. done.
  - intros Hmock.
    assert (set now key (JStr text) None (Some seconds) c
            = with_mock (MockRedisClient.set now key (JStr text) None (mock c)) c)
      as ->.
    { unfold set. by rewrite Hmock. }
    rewrite get_from_mock by done. cbn [fst mock with_mock].
    unfold MockRedisClient.get, MockRedisClient.set.
    by rewrite lookup_insert_eq.
Qed.
End client_modes.

(** The rate counter of [u1] on a client without cache server. *)
Lemma mock_mode_is_permanent_witness :
  RedisClient.useMock (RedisClient.incr 1000 "rate_limit:u1:0" Example.mock_redis).2
  = true.
Proof.
  pose proof (mock_mode_is_permanent (H := fragment_json) 1000 "rate_limit:u1:0"
                60 JNull None None Example.mock_redis eq_refl) as Hall.
  rewrite !Forall_cons in Hall.
  destruct Hall as (_ & _ & _ & _ & _ & (Hincr & _) & _). exact Hincr.
Defined.

(** The server holds the key, the connection fails at the read. *)
Lemma get_failure_falls_back_to_empty_cache_witness :
  let c := {| RedisClient.useMock := false; RedisClient.mock := ∅;
              RedisClient.server :=
                {[ "k" := {| item_value := "v"; item_expires := None |} ]};
              RedisClient.faults := [true] |} in
  (RedisClient.get (H := fragment_json) 1000 "k" c).1 = JNull
  ∧ RedisClient.useMock (RedisClient.get (H := fragment_json) 1000 "k" c).2 = true.
Proof.
  intros c.
  rewrite (get_failure_falls_back_to_empty_cache (H := fragment_json)
             1000 "k" c [] eq_refl eq_refl).
  split; reflexivity.
Defined.

Lemma incr_in_mock_mode_stays_at_one_witness :
  RedisClient.incr 1000 "rate_limit:u1:0" Example.mock_redis
  = (Returned (Int 1), Example.mock_redis).
Proof.
  apply incr_in_mock_mode_stays_at_one; [reflexivity | vm_compute; reflexivity].
Defined.

(** The text of an object, written at 1 s and read at 2 s. *)
Lemma setEx_then_get_by_mode_witness :
  (RedisClient.get (H := fragment_json) 2000 "k"
     (RedisClient.setEx (H := fragment_json) 1000 "k" 30 (JStr "{}")
        (Example.real_redis ∅))).1 = JObj []
  ∧ (RedisClient.get (H := fragment_json) 2000 "k"
       (RedisClient.setEx (H := fragment_json) 1000 "k" 30 (JStr "{}")
          Example.mock_redis)).1 = JStr "{}".
Proof.
  split.
  - destruct (setEx_then_get_by_mode (H := fragment_json) 1000 2000 "k" 30 "{}"
                (Example.real_redis ∅)) as [Hserver _]; [lia|lia|lia|discriminate|].
    rewrite Hserver by reflexivity. vm_compute. reflexivity.
  - destruct (setEx_then_get_by_mode (H := fragment_json) 1000 2000 "k" 30 "{}"
                Example.mock_redis) as [_ Hmock]; [lia|lia|lia|discriminate|].
    apply Hmock. reflexivity.
Defined.

Lemma set_with_EX_expires_on_the_server_only_witness :
  (RedisClient.get (H := fragment_json) 40000 "k"
     (RedisClient.set (H := fragment_json) 1000 "k" (JStr "v") None (Some 30)
        (Example.real_redis ∅))).1 = JNull
  ∧ (RedisClient.get (H := fragment_json) 40000 "k"
       (RedisClient.set (H := fragment_json) 1000 "k" (JStr "v") None (Some 30)
          Example.mock_redis)).1 = JStr "v".
Proof.
  split.
  - destruct (set_with_EX_expires_on_the_server_only (H := fragment_json)
                1000 40000 "k" "v" 30 (Example.real_redis ∅)) as [Hserver _];
      [lia|lia|discriminate|].
    apply Hserver; reflexivity.
  - destruct (set_with_EX_expires_on_the_server_only (H := fragment_json)
                1000 40000 "k" "v" 30 Example.mock_redis) as [_ Hmock];
      [lia|lia|discriminate|].
    apply Hmock. reflexivity.
Defined.

(* ================================================================= *)
(** ** What a disconnect cleans, and what it announces *)

Section disconnect_more.
Import LimitedMap LimitedMapFacts.

Lemma lookup_delete_keys {V} `{Truthy V} (ks : list string)
    (m : LimitedMap.t string V) (k : string) :
  lookup k (foldl (λ m key, delete key m) m ks)
  = if decide (k ∈ ks) then None else lookup k m.
Proof.
  revert m. induction ks as [|k0 ks IH]; intros m; cbn [foldl].
  - by rewrite decide_False by apply not_elem_of_nil.
  - rewrite IH, lookup_delete.
    destruct (decide (k ∈ ks)) as [Hin|Hout].
    + by rewrite decide_True by (by apply list_elem_of_further).
    + destruct (decide (k0 = k)) as [->|Hne].
      * by rewrite decide_True by apply list_elem_of_here.
      * rewrite decide_False; [done|].
        rewrite elem_of_cons. intros [->|?]; done.
Qed.

(** The three caches after [on_disconnect] (lines 993-1011). *)
Lemma on_disconnect_caches now c sock reason s user :
  sock_user sock = Some user →
  messageQueues (on_disconnect now c sock reason s)
  = foldl (λ m key, delete key m) (messageQueues s)
      (filter (λ key, includes (su_id user) key = true) (keys (messageQueues s)))
  ∧ streamingSessions (on_disconnect now c sock reason s)
    = foldl (λ m key, delete key m) (streamingSessions s)
        (filter (λ e, ss_userId e.2 = Some (su_id user))
           (entries (streamingSessions s))).*1
  ∧ rateLimitCache (on_disconnect now c sock reason s)
    = foldl (λ m key, delete key m) (rateLimitCache s)
        (filter (λ key, String.prefix (su_id user) key = true)
           (keys (rateLimitCache s))).
Proof.
  intros Hu. unfold on_disconnect. rewrite Hu.
  destruct (get (su_id user) (connectedUsers s)) as [current cu].
  cbn [userRooms set_connectedUsers].
  destruct (get (su_id user) (userRooms s)) as [roomId ur].
  destruct roomId as [room|]; [|by split_and!].
  destruct (truthy room && _ && _); [|by split_and!].
  cbn [save_message]. cbn -[get delete includes String.prefix].
  destruct (_ !! room); by split_and!.
Qed.

(** What [on_disconnect] saves and emits (lines 1014-1038). *)
Lemma on_disconnect_leave now c sock reason s user :
  sock_user sock = Some user →
  let s' := on_disconnect now c sock reason s in
  match lookup (su_id user) (userRooms s) with
  | Some roomId =>
      if truthy roomId
         && negb (bool_decide (reason = "client namespace disconnect"))
         && negb (bool_decide (reason = "duplicate_login"))
      then
        let saved := save_message roomId None
                       (su_name user +:+ "님이 연결이 끊어졌습니다.")
                       "system" None None now (db s) in
        match rooms (db s) !! roomId with
        | Some room =>
            let left := filter (λ p, p ≠ su_id user) (room_participants room) in
            let d := with_rooms
                       (<[roomId := {| room_name := room_name room;
                                       room_participants := left |}]> (rooms (db s)))
                       saved.2 in
            db s' = d
            ∧ outbox s'
              = outbox s
                ++ [mkEmit (ToRoom roomId) "message" (message_doc_js d saved.1);
                    mkEmit (ToRoom roomId) "participantsUpdate"
                      (populate_participants d left)]
        | None => db s' = saved.2 ∧ outbox s' = outbox s
        end
      else db s' = db s ∧ outbox s' = outbox s
  | None => db s' = db s ∧ outbox s' = outbox s
  end.
Proof.
  intros Hu s'. subst s'. unfold on_disconnect. rewrite Hu.
  destruct (get (su_id user) (connectedUsers s)) as [current cu].
  cbn [userRooms set_connectedUsers].
  destruct (get (su_id user) (userRooms s)) as [roomId ur] eqn:Hur.
  assert (roomId = lookup (su_id user) (userRooms s)) as ->
    by (by rewrite <- get_value, Hur).
  destruct (lookup (su_id user) (userRooms s)) as [room|]; [|by split].
  destruct (truthy room && _ && _); [|by split].
  cbn [save_message fst snd]. cbn -[get delete includes String.prefix].
  destruct (rooms (db s) !! room) as [r|]; [|by split].
  split; [done|]. unfold emit. cbn. by rewrite <- app_assoc.
Qed.

(** X12.  A disconnect that the client asked for announces nothing: no message is
    saved, the participants stay, nothing is sent. *)
Theorem client_disconnect_is_silent (now : Z) (c : string) (sock : Socket)
    (s : Server) :
  let s' := on_disconnect now c sock "client namespace disconnect" s in
  db s' = db s ∧ outbox s' = outbox s.
Proof.
  intros s'. subst s'.
  destruct (sock_user sock) as [user|] eqn:Hu;
    [|unfold on_disconnect; by rewrite Hu].
  pose proof (on_disconnect_leave now c sock "client namespace disconnect" s user Hu)
    as Hleave. cbn zeta in Hleave.
  destruct (lookup (su_id user) (userRooms s)) as [room|]; [|done].
  rewrite bool_decide_eq_true_2 in Hleave by done.
  by rewrite andb_false_r in Hleave.
Qed.

(** X13.  Any other disconnect of a user who is in a room: the message of the
    leave is saved, the user is taken out of the participants of the room,
    and the room is sent the message and its participants. *)
Theorem other_disconnect_announces_the_leave (now : Z) (c : string)
    (sock : Socket) (reason : string) (s : Server) (user : SocketUser)
    (roomId : string) (room : Room) :
  sock_user sock = Some user →
  LimitedMap.lookup (su_id user) (userRooms s) = Some roomId → roomId ≠ "" →
  reason ≠ "client namespace disconnect" → reason ≠ "duplicate_login" →
  rooms (db s) !! roomId = Some room →
  let s' := on_disconnect now c sock reason s in
  let left := filter (λ p, p ≠ su_id user) (room_participants room) in
  (∃ m, messages (db s') = messages (db s) ++ [m]
        ∧ msg_room m = roomId ∧ msg_type m = "system" ∧ msg_sender m = None
        ∧ msg_content m = su_name user +:+ "님이 연결이 끊어졌습니다."
        ∧ msg_timestamp m = now
        ∧ ∃ l, outbox s' = outbox s ++ [mkEmit (ToRoom roomId) "message" l;
                 mkEmit (ToRoom roomId) "participantsUpdate"
                   (populate_participants (db s') left)])
  ∧ room_participants <$> rooms (db s') !! roomId = Some left
  ∧ su_id user ∉ left.
Proof.
  intros Hu Hroom Hne Hr1 Hr2 Hdoc s' left. subst s'.
  pose proof (on_disconnect_leave now c sock reason s user Hu) as Hleave.
  cbn zeta in Hleave. change LimitedMap.lookup with (@lookup string string _) in Hroom.
  rewrite Hroom in Hleave.
  rewrite (truthy_string roomId Hne) in Hleave.
  rewrite !bool_decide_eq_false_2 in Hleave by done.
  cbn [negb andb] in Hleave. rewrite Hdoc in Hleave.
  destruct Hleave as [Hdb Hout]. rewrite Hdb, Hout. split_and!.
  - eexists. split; [reflexivity|]. split_and!; try reflexivity.
    by eexists.
  - cbn [rooms with_rooms]. by rewrite lookup_insert_eq.
  - subst left. rewrite list_elem_of_filter. intros [? _]. done.
Qed.

(** X14.  The disconnect of a user erases every bucket of [rateLimitCache] whose
    key starts with the user's id, and no other: the user's own buckets, and
    those of any user whose id begins with it. *)
Theorem disconnect_erases_buckets_by_prefix (now : Z) (c : string)
    (sock : Socket) (reason : string) (s : Server) (user : SocketUser)
    (key : string) :
  sock_user sock = Some user →
  LimitedMap.lookup key (rateLimitCache (on_disconnect now c sock reason s))
  = if String.prefix (su_id user) key then None
    else LimitedMap.lookup key (rateLimitCache s).
Proof.
  intros Hu.
  destruct (on_disconnect_caches now c sock reason s user Hu) as (_ & _ & ->).
  change LimitedMap.lookup with (@lookup string RateEntry _).
  rewrite lookup_delete_keys.
  destruct (String.prefix (su_id user) key) eqn:Hp.
  - case_decide as Hin; [done|]. unfold lookup. apply Map_get_None.
    intros Hk. apply Hin. apply list_elem_of_filter. by split.
  - rewrite decide_False; [done|].
    rewrite list_elem_of_filter. intros [? _]. congruence.
Qed.

Lemma Map_get_of_elem {V} (l : list (string * V)) (k : string) (v : V) :
  NoDup l.*1 → (k, v) ∈ l → Map_get k l = Some v.
Proof.
  induction l as [|[k0 v0] l IH]; intros Hnd Hin.
  - by apply elem_of_nil in Hin.
  - cbn [Map_get]. rewrite fmap_cons in Hnd. apply NoDup_cons in Hnd as [Hk0 Hnd].
    apply elem_of_cons in Hin as [[= <- <-]|Hin]; [by rewrite decide_True|].
    rewrite decide_False; [by apply IH|].
    intros ->. apply Hk0. apply list_elem_of_fmap. by exists (k, v).
Qed.

(** X15.  The disconnect handler looks for the streaming sessions of the user by
    their [userId], which [handleAIResponse] never sets: the session of an
    answer under way outlives every disconnect. *)
Theorem ai_session_outlives_disconnect (now t : Z) (roomId aiType c reason : string)
    (sock : Socket) (s : Server) :
  LimitedMap.wf (streamingSessions s) →
  let sid := AI_sessionId roomId aiType now in
  let s1 := handleAIResponse_start now roomId aiType s in
  LimitedMap.lookup sid (streamingSessions (on_disconnect t c sock reason s1))
  = Some {| ss_room := roomId; ss_aiType := aiType; ss_content := "";
            ss_timestamp := now; ss_lastActivity := now;
            ss_messageId := None; ss_userId := None |}.
Proof.
  intros Hwf sid s1.
  assert (LimitedMap.lookup sid (streamingSessions s1)
          = Some {| ss_room := roomId; ss_aiType := aiType; ss_content := "";
                    ss_timestamp := now; ss_lastActivity := now;
                    ss_messageId := None; ss_userId := None |}) as Hs1
    by apply lookup_set_eq.
  assert (LimitedMap.wf (streamingSessions s1)) as Hwf1 by (by apply wf_set).
  destruct (sock_user sock) as [user|] eqn:Hu;
    [|unfold on_disconnect; by rewrite Hu].
  destruct (on_disconnect_caches t c sock reason s1 user Hu) as (_ & -> & _).
  change LimitedMap.lookup with (@lookup string StreamSession _) in *.
  rewrite lookup_delete_keys, decide_False; [done|].
  rewrite list_elem_of_fmap. intros ([k e] & Hk & Hin). cbn in Hk. subst k.
  apply list_elem_of_filter in Hin as [Huid Hin]. cbn in Huid.
  apply (Map_get_of_elem _ _ _ Hwf1) in Hin.
  unfold lookup in Hs1. rewrite Hs1 in Hin. injection Hin as <-.
  discriminate Huid.
Qed.
End disconnect_more.

(** The first session of [u1], in [r1], loses its connection at 3 s. *)
Lemma other_disconnect_announces_the_leave_witness :
  let s' := on_disconnect 3000 "c1"
              {| sock_user := Some {| su_id := "u1"; su_name := "Alice";
                                      su_email := "alice@example.com";
                                      su_sessionId := "session-1";
                                      su_profileImage := None |};
                 sock_rooms := ["r1"]; sock_userAgent := "agent";
                 sock_address := "10.0.0.1" |}
              "transport close" Example.joined in
  room_participants <$> rooms (db s') !! "r1" = Some [].
Proof.
  intros s'.
  destruct (other_disconnect_announces_the_leave 3000 "c1"
              {| sock_user := Some {| su_id := "u1"; su_name := "Alice";
                                      su_email := "alice@example.com";
                                      su_sessionId := "session-1";
                                      su_profileImage := None |};
                 sock_rooms := ["r1"]; sock_userAgent := "agent";
                 sock_address := "10.0.0.1" |}
              "transport close" Example.joined
              {| su_id := "u1"; su_name := "Alice";
                 su_email := "alice@example.com";
                 su_sessionId := "session-1"; su_profileImage := None |}
              "r1" {| room_name := "general"; room_participants := ["u1"] |})
    as (_ & Hleft & _);
    [reflexivity | vm_compute; reflexivity | discriminate | discriminate
     | discriminate | vm_compute; reflexivity |].
  exact Hleft.
Defined.

(** [u1] has sent a message in the first minute and disconnects. *)
Lemma disconnect_erases_buckets_by_prefix_witness :
  LimitedMap.lookup "u1:0"
    (rateLimitCache
       (on_disconnect 3000 "c1"
          {| sock_user := Some Example.u1; sock_rooms := [];
             sock_userAgent := "agent"; sock_address := "10.0.0.1" |}
          "transport close" (Example.after_sends 1)))
  = None.
Proof.
  rewrite (disconnect_erases_buckets_by_prefix 3000 "c1"
             {| sock_user := Some Example.u1; sock_rooms := [];
                sock_userAgent := "agent"; sock_address := "10.0.0.1" |}
             "transport close" (Example.after_sends 1) Example.u1 "u1:0" eq_refl).
  reflexivity.
Defined.

Lemma ai_session_outlives_disconnect_witness :
  is_Some
    (LimitedMap.lookup (AI_sessionId "r1" "wayneAI" 2000)
       (streamingSessions
          (on_disconnect 3000 "c1"
             {| sock_user := Some Example.u1; sock_rooms := ["r1"];
                sock_userAgent := "agent"; sock_address := "10.0.0.1" |}
             "transport close"
             (handleAIResponse_start 2000 "r1" "wayneAI" Example.joined)))).
Proof.
  rewrite (ai_session_outlives_disconnect 2000 3000 "r1" "wayneAI" "c1"
             "transport close" _ Example.joined);
    [by eexists|].
  apply (bool_decide_unpack _). vm_compute. exact I.
Defined.

(* ================================================================= *)
(** ** The rate limiter and the registry of connections at their edges *)

Section edges.
Context `{JSON} `{AuthVerifier}.
Import LimitedMap LimitedMapFacts.

(** X16.  A failure of the cache server does not refuse a message: on a miss of
    [rateLimitCache], when the [INCR] fails, the new in-memory cache throws
    as well, the [catch] of [checkRateLimit] takes it for a cache error, and
    the send passes with a bucket that counts 1. *)
Theorem checkRateLimit_fails_open (now : Z) (userId : string)
    (cache0 : LimitedMap.t string RateEntry) (redis0 : RedisClient.t)
    (rest : list bool) :
  lookup (rateLimitKey userId (window_of now)) cache0 = None →
  RedisClient.useMock redis0 = false → RedisClient.faults redis0 = true :: rest →
  checkRateLimit now userId cache0 redis0
  = (Ok (),
     set (rateLimitKey userId (window_of now))
       {| rate_count := Int 1; rate_timestamp := now |}
       (get (rateLimitKey userId (window_of now)) cache0).2,
     {| RedisClient.useMock := true; RedisClient.mock := ∅;
        RedisClient.server := RedisClient.server redis0;
        RedisClient.faults := rest |}).
Proof.
  intros Hmiss Hreal Hfault. rewrite checkRateLimit_miss by done. cbn zeta.
  unfold RedisClient.incr, RedisClient.next_fault. rewrite Hreal, Hfault.
  unfold RedisClient.fallback, MockRedisClient.incr. cbn [RedisClient.mock].
  by rewrite lookup_empty.
Qed.

(** X17.  Registering a user in a full [connectedUsers] evicts the oldest
    registered user, whose socket stays connected: the registry does not
    know that session any more. *)
Theorem registration_evicts_the_oldest_user (h : Handshake) (user : SocketUser)
    (s : Server) (o co : string) (sock_o : Socket) :
  (maxSize (connectedUsers s) ≤ size (connectedUsers s))%nat →
  oldestKey (connectedUsers s) = Some o → o ≠ su_id user →
  lookup o (connectedUsers s) = Some co → co ≠ hs_socket h →
  sockets s !! co = Some sock_o →
  let s' := on_connection h user s in
  lookup o (connectedUsers s') = None
  ∧ sockets s' !! co = Some sock_o
  ∧ lookup (su_id user) (connectedUsers s') = Some (hs_socket h).
Proof.
  intros Hfull Ho Hne Hco Hc Hsock s'. subst s'.
  destruct (on_connection_facts h user s) as (Hreg & Hs & _).
  split_and!; [|by rewrite Hs, lookup_insert_ne|done].
  unfold on_connection. cbn [connectedUsers set_sockets].
  destruct (get (su_id user) (connectedUsers s)) as [previous cu] eqn:Hget.
  cbn [connectedUsers set_connectedUsers].
  assert (cu = (get (su_id user) (connectedUsers s)).2) as -> by (by rewrite Hget).
  unfold lookup, set. rewrite maxSize_get.
  unfold size, oldestKey, keys. rewrite !entries_get.
  fold (keys (connectedUsers s)). fold (oldestKey (connectedUsers s)).
  fold (size (connectedUsers s)).
  rewrite decide_True, Ho by done. cbn [entries with_entries delete].
  rewrite Map_get_set, decide_False by done.
  rewrite entries_get. by rewrite Map_get_delete, decide_True.
Qed.

(** X18.  With the user in the cache, the handshake is accepted with the cached
    identity and the store is not read: whatever it holds, the user may be
    gone from it, the outcome is the same. *)
Theorem cached_user_is_not_read_from_store (t : Z) (h : Handshake) (s : Server)
    (v : JsValue) (su : SocketUser) (d : Database) :
  isValid (validateSession (hs_userId h) (hs_sessionId h)) = true →
  from_cache (RedisClient.get t ("user:" +:+ hs_userId h) (redis s)).1 = Some v →
  truthy v = true → socket_user v (hs_sessionId h) = Some su →
  authenticate t h (set_db d s)
  = set_db d
      (on_connection h su
         (set_redis (RedisClient.get t ("user:" +:+ hs_userId h) (redis s)).2 s)).
Proof.
  intros Hvalid Hhit Htruthy Hsu. unfold authenticate. rewrite Hvalid.
  cbn [negb redis set_db].
  destruct (RedisClient.get t _ (redis s)) as [cached r]. cbn [fst snd] in *.
  rewrite Hhit, Htruthy, Hsu. unfold on_connection.
  cbn [connectedUsers set_sockets set_redis set_db sockets].
  by destruct (get (su_id su) (connectedUsers s)).
Qed.
End edges.

(** The cache server fails at the first send of [u1]. *)
Lemma checkRateLimit_fails_open_witness :
  (checkRateLimit 1000 "u1" (LimitedMap.create 2000)
     {| RedisClient.useMock := false; RedisClient.mock := ∅;
        RedisClient.server := ∅; RedisClient.faults := [true] |}).1.1 = Ok ().
Proof.
  rewrite (checkRateLimit_fails_open 1000 "u1" (LimitedMap.create 2000)
             {| RedisClient.useMock := false; RedisClient.mock := ∅;
                RedisClient.server := ∅; RedisClient.faults := [true] |} []
             eq_refl eq_refl eq_refl).
  reflexivity.
Defined.

(** A registry of one slot that holds [u1]; [u2] connects. *)
Lemma registration_evicts_the_oldest_user_witness :
  let s := set_connectedUsers
             {| LimitedMap.entries := [("u1", "c1")]; LimitedMap.maxSize := 1;
                LimitedMap.hitCount := 0; LimitedMap.missCount := 0 |}
             Example.connected in
  let s' := on_connection
              {| hs_socket := "c5"; hs_userId := "u2"; hs_sessionId := "session-5";
                 hs_userAgent := "agent-5"; hs_address := "10.0.0.5" |}
              {| su_id := "u2"; su_name := "Bob"; su_email := "bob@example.com";
                 su_sessionId := "session-5"; su_profileImage := None |} s in
  LimitedMap.lookup "u1" (connectedUsers s') = None
  ∧ is_Some (sockets s' !! "c1").
Proof.
  intros s s'.
  destruct (registration_evicts_the_oldest_user
              {| hs_socket := "c5"; hs_userId := "u2"; hs_sessionId := "session-5";
                 hs_userAgent := "agent-5"; hs_address := "10.0.0.5" |}
              {| su_id := "u2"; su_name := "Bob"; su_email := "bob@example.com";
                 su_sessionId := "session-5"; su_profileImage := None |}
              s "u1" "c1"
              {| sock_user := Some {| su_id := "u1"; su_name := "Alice";
                                      su_email := "alice@example.com";
                                      su_sessionId := "session-1";
                                      su_profileImage := None |};
                 sock_rooms := []; sock_userAgent := "agent";
                 sock_address := "10.0.0.1" |})
    as (Hgone & Hsock & _);
    [vm_compute; lia | reflexivity | discriminate | reflexivity | discriminate
     | vm_compute; reflexivity |].
  split; [exact Hgone|]. unfold s'. rewrite Hsock. by eexists.
Defined.

(** [u1] is in the cache since its login; the store has lost every user. *)
Lemma cached_user_is_not_read_from_store_witness :
  let h := {| hs_socket := "c2"; hs_userId := "u1"; hs_sessionId := "session-2";
              hs_userAgent := "agent-2"; hs_address := "10.0.0.2" |} in
  let d := {| messages := []; rooms := ∅; users := ∅; next_id := 0 |} in
  is_Some (sockets (authenticate (H := fragment_json) (H0 := Example.auth)
                      5000 h (set_db d Example.joined)) !! "c2").
Proof.
  intros h d.
  rewrite (cached_user_is_not_read_from_store (H := fragment_json)
             (H0 := Example.auth) 5000 h Example.joined
             (JObj [("_id", JStr "u1"); ("name", JStr "Alice");
                    ("email", JStr "alice@example.com"); ("profileImage", JNull)])
             {| su_id := "u1"; su_name := "Alice"; su_email := "alice@example.com";
                su_sessionId := "session-2"; su_profileImage := None |} d);
    [|reflexivity|vm_compute; reflexivity|reflexivity|reflexivity].
  vm_compute. by eexists.
Defined.

(* ================================================================= *)
(** ** Read receipts *)

Section small_handlers.

Lemma mark_read_in_messages roomId uid now ids d :
  msg_id <$> messages (mark_read_in roomId uid now ids d) = msg_id <$> messages d.
Proof.
  unfold mark_read_in. cbn [messages with_messages].
  rewrite <- list_fmap_compose. apply list_fmap_ext. intros i m _. cbn.
  by destruct (_ && _).
Qed.

Lemma mark_read_in_idem roomId uid now now' ids d :
  mark_read_in roomId uid now' ids (mark_read_in roomId uid now ids d)
  = mark_read_in roomId uid now ids d.
Proof.
  unfold mark_read_in, with_messages. cbn [messages rooms users next_id].
  f_equal. rewrite <- list_fmap_compose. apply list_fmap_ext. intros i m _.
  cbn [compose].
  destruct (bool_decide (msg_id m ∈ ids) && bool_decide (msg_room m = roomId)
            && negb (bool_decide (uid ∈ (msg_readers m).*1))) eqn:Hc.
  - cbn [msg_id msg_room msg_readers].
    apply andb_true_iff in Hc as [Hc _]. rewrite Hc. cbn [andb].
    rewrite fmap_app.
    rewrite (bool_decide_eq_true_2 (uid ∈ (msg_readers m).*1 ++ [(uid, now)].*1));
      [done|].
    rewrite elem_of_app. right. apply list_elem_of_here.
  - by rewrite Hc.
Qed.

(** X19.  [markMessagesAsRead] is idempotent on the store: the same request again
    changes no message; and it adds readers only: the messages, their order
    and their ids stay, those of other rooms untouched. *)
Theorem marking_read_twice_changes_nothing (now now' : Z) (c roomId : string)
    (messageIds : option (list string)) (s : Server) :
  let s1 := on_markMessagesAsRead now c roomId messageIds s in
  let s2 := on_markMessagesAsRead now' c roomId messageIds s1 in
  db s2 = db s1
  ∧ msg_id <$> messages (db s1) = msg_id <$> messages (db s)
  ∧ (∀ m, m ∈ messages (db s) → msg_room m ≠ roomId → m ∈ messages (db s1)).
Proof.
  intros s1 s2. subst s1 s2. unfold on_markMessagesAsRead.
  destruct (sockets s !! c) as [sock|] eqn:Hc; [|by rewrite Hc; split_and!].
  destruct (sock_user sock) as [user|] eqn:Hu;
    [|by rewrite Hc, Hu; split_and!].
  destruct messageIds as [[|id ids]|]; [by rewrite Hc, Hu; split_and!| |by rewrite Hc, Hu; split_and!].
  cbn [sockets emit set_outbox set_db db]. rewrite Hc, Hu.
  cbn [emit set_outbox set_db db]. split_and!.
  - apply mark_read_in_idem.
  - apply mark_read_in_messages.
  - intros m Hin Hroom. unfold mark_read_in. cbn [messages with_messages].
    apply list_elem_of_fmap. exists m. split; [|done].
    rewrite (bool_decide_eq_false_2 (msg_room m = roomId)) by done.
    by rewrite andb_false_r.
Qed.

End small_handlers.

(* ================================================================= *)
(** ** Loading the history again and again *)

Section retries.
Context `{JSON}.

Lemma loadMessagesWithRetry_from_eq left now user roomId before timeouts retries
    redis0 db0 :
  loadMessagesWithRetry_from left now user roomId before timeouts retries redis0 db0
  = let retryKey := loadKey roomId (su_id user) before in
    let attempt := loadMessages now (Some user) roomId before BATCH_SIZE
                     (default false (head timeouts)) redis0 db0 in
    match attempt.1.1 with
    | Ok result =>
        (Ok result, LimitedMap.delete retryKey retries, attempt.1.2, attempt.2)
    | Throw error =>
        match left with
        | S left' =>
            loadMessagesWithRetry_from left'
              (now + MESSAGE_LOAD_TIMEOUT + retry_delay (MAX_RETRIES - left))
              user roomId before (tail timeouts)
              (LimitedMap.set retryKey
                 {| retry_count := Z.of_nat (MAX_RETRIES - left) + 1;
                    retry_lastAttempt := now + MESSAGE_LOAD_TIMEOUT |} retries)
              attempt.1.2 attempt.2
        | O => (Throw error, LimitedMap.delete retryKey retries,
                attempt.1.2, attempt.2)
        end
    end.
Proof.
  destruct left; cbn [loadMessagesWithRetry_from];
    destruct (loadMessages _ _ _ _ _ _ _ _) as [[[] ?] ?]; reflexivity.
Qed.

Lemma retry_record_cleared_from left : ∀ now user roomId before timeouts retries
    redis0 db0,
  LimitedMap.lookup (loadKey roomId (su_id user) before)
    (loadMessagesWithRetry_from left now user roomId before timeouts retries
       redis0 db0).1.1.2
  = None.
Proof.
  induction left as [|left IH]; intros; rewrite loadMessagesWithRetry_from_eq;
    cbn zeta; destruct (loadMessages _ _ _ _ _ _ _ _).1.1; cbn [fst snd];
    try (by rewrite lookup_delete, decide_True).
  apply IH.
Qed.

(** X20.  However [loadMessagesWithRetry] ends, with the history or with the error
    of the last attempt, it leaves no record of its retries under its key. *)
Theorem retry_record_is_cleared (now : Z) (user : SocketUser) (roomId : string)
    (before : option Z) (timeouts : list bool)
    (retries : LimitedMap.t string RetryEntry) (redis0 : RedisClient.t)
    (db0 : Database) :
  LimitedMap.lookup (loadKey roomId (su_id user) before)
    (loadMessagesWithRetry now user roomId before timeouts retries redis0 db0).1.1.2
  = None.
Proof. unfold loadMessagesWithRetry. apply retry_record_cleared_from. Qed.




End retries.


(* ================================================================= *)
(** ** Fetching older messages *)

Section fetching.
Context `{JSON}.

(** X22.  Without access, neither cached nor found in the room, the request is
    answered by the one error [LOAD_ERROR]; nothing is loaded, no request is
    marked as under way. *)
Theorem fetch_without_access_is_refused (now : Z) (c roomId : string)
    (before : option Z) (timeouts : list bool)
    (retries : LimitedMap.t string RetryEntry) (s : Server)
    (sock : Socket) (user : SocketUser) :
  sockets s !! c = Some sock → sock_user sock = Some user →
  LimitedMap.has (loadKey roomId (su_id user) before) (messageQueues s) = false →
  truthy (RedisClient.get now (roomCacheKey roomId (su_id user)) (redis s)).1 = false →
  (∀ room, rooms (db s) !! roomId = Some room → su_id user ∉ room_participants room) →
  let out := on_fetchPreviousMessages now c roomId before timeouts (retries, s) in
  out.1 = retries
  ∧ outbox out.2
    = outbox s ++ [mkEmit (ToSocket c) "error"
                     (JObj [("type", JStr "LOAD_ERROR");
                            ("message", JStr "채팅방 접근 권한이 없습니다.")])]
  ∧ db out.2 = db s ∧ messageQueues out.2 = messageQueues s.
Proof.
  intros Hc Hu Hfree Hnone Hout out. subst out. unfold on_fetchPreviousMessages.
  rewrite Hc, Hu, Hfree.
  destruct (RedisClient.get now _ (redis s)) as [hasAccess r]. cbn [fst] in Hnone.
  rewrite Hnone. cbn [db set_redis].
  destruct (rooms (db s) !! roomId) as [room|] eqn:Hroom; [|done].
  rewrite bool_decide_eq_false_2 by (by apply Hout). done.
Qed.

(** X23.  With access in the cache (it stays there 300 s), the room is not asked
    who its participants are: whatever it holds, the load starts, and the
    request ends with the history or with the error of the load. *)
Theorem cached_access_skips_the_room (now : Z) (c roomId : string)
    (before : option Z) (timeouts : list bool)
    (retries : LimitedMap.t string RetryEntry) (s : Server)
    (sock : Socket) (user : SocketUser) :
  sockets s !! c = Some sock → sock_user sock = Some user →
  LimitedMap.has (loadKey roomId (su_id user) before) (messageQueues s) = false →
  truthy (RedisClient.get now (roomCacheKey roomId (su_id user)) (redis s)).1 = true →
  let out := on_fetchPreviousMessages now c roomId before timeouts (retries, s) in
  ∃ last,
    outbox out.2
    = outbox s ++ [mkEmit (ToSocket c) "messageLoadStart" JNull; last]
    ∧ emit_target last = ToSocket c
    ∧ ((∃ result, emit_event last = "previousMessagesLoaded"
                  ∧ emit_payload last = result)
       ∨ (emit_event last = "error"
          ∧ ∃ e, (loadMessagesWithRetry now user roomId before timeouts retries
                    (RedisClient.get now (roomCacheKey roomId (su_id user)) (redis s)).2
                    (db s)).1.1.1 = Throw e))
    ∧ LimitedMap.lookup (loadKey roomId (su_id user) before) (messageQueues out.2)
      = Some now.
Proof.
  intros Hc Hu Hfree Haccess out. subst out. unfold on_fetchPreviousMessages.
  rewrite Hc, Hu, Hfree.
  destruct (RedisClient.get now _ (redis s)) as [hasAccess r]. cbn [fst snd] in *.
  rewrite Haccess.
  cbn [redis db set_redis set_messageQueues emit set_outbox messageQueues outbox].
  destruct (loadMessagesWithRetry now user roomId before timeouts retries r (db s))
    as [[[[result|e] retries'] r'] d']; cbn [fst snd].
  - eexists. unfold emit. cbn. rewrite <- app_assoc. split; [reflexivity|].
    split_and!; [done|left; by eexists|apply lookup_set_eq].
  - eexists. unfold load_error, emit. cbn. rewrite <- app_assoc.
    split; [reflexivity|].
    split_and!; [done|right; split; [done|by eexists]|apply lookup_set_eq].
Qed.

End fetching.

(** [u1], connected but in no room yet, asks for the messages of [r1]. *)
Lemma fetch_without_access_is_refused_witness :
  outbox (on_fetchPreviousMessages (H := fragment_json) 2000 "c1" "r1" None []
            (LimitedMap.create 200, Example.connected)).2
  = outbox Example.connected
    ++ [mkEmit (ToSocket "c1") "error"
          (JObj [("type", JStr "LOAD_ERROR");
                 ("message", JStr "채팅방 접근 권한이 없습니다.")])].
Proof.
  destruct (fetch_without_access_is_refused (H := fragment_json) 2000 "c1" "r1"
              None [] (LimitedMap.create 200) Example.connected
              {| sock_user := Some {| su_id := "u1"; su_name := "Alice";
                                      su_email := "alice@example.com";
                                      su_sessionId := "session-1";
                                      su_profileImage := None |};
                 sock_rooms := []; sock_userAgent := "agent";
                 sock_address := "10.0.0.1" |}
              {| su_id := "u1"; su_name := "Alice"; su_email := "alice@example.com";
                 su_sessionId := "session-1"; su_profileImage := None |})
    as (_ & Hout & _);
    [vm_compute; reflexivity | reflexivity | vm_compute; reflexivity
     | vm_compute; reflexivity | |exact Hout].
  intros room Hroom. vm_compute in Hroom. injection Hroom as <-.
  apply not_elem_of_nil.
Defined.

(** Access to [r1] is in the cache; [u1] is not among its participants. *)
Lemma cached_access_skips_the_room_witness :
  let s := set_redis
             (RedisClient.setEx (H := fragment_json) 1500 "room_access:r1:u1" 300
                (JStr "true") (redis Example.connected)) Example.connected in
  room_participants <$> rooms (db s) !! "r1" = Some []
  ∧ ∃ last,
      outbox (on_fetchPreviousMessages (H := fragment_json) 2000 "c1" "r1" None []
                (LimitedMap.create 200, s)).2
      = outbox s ++ [mkEmit (ToSocket "c1") "messageLoadStart" JNull; last].
Proof.
  intros s. split; [vm_compute; reflexivity|].
  destruct (cached_access_skips_the_room (H := fragment_json) 2000 "c1" "r1"
              None [] (LimitedMap.create 200) s
              {| sock_user := Some {| su_id := "u1"; su_name := "Alice";
                                      su_email := "alice@example.com";
                                      su_sessionId := "session-1";
                                      su_profileImage := None |};
                 sock_rooms := []; sock_userAgent := "agent";
                 sock_address := "10.0.0.1" |}
              {| su_id := "u1"; su_name := "Alice"; su_email := "alice@example.com";
                 su_sessionId := "session-1"; su_profileImage := None |})
    as (last & Hout & _);
    [vm_compute; reflexivity | reflexivity | vm_compute; reflexivity
     | vm_compute; reflexivity |].
  exists last. exact Hout.
Defined.


(* ================================================================= *)
(** ** The janitor *)

Section janitor.
Import LimitedMap LimitedMapFacts.

Lemma Map_get_elem {V} (l : list (string * V)) (k : string) (v : V) :
  Map_get k l = Some v → (k, v) ∈ l.
Proof.
  induction l as [|[k0 v0] l IH]; [done|]. cbn [Map_get].
  case_decide as Hk.
  - intros [= <-]. subst. apply list_elem_of_here.
  - intros Hget. apply list_elem_of_further. by apply IH.
Qed.

(** What is found after deleting the keys of the entries that [P] selects
    does not satisfy [P]. *)
Lemma lookup_after_sweep {V} `{Truthy V} (P : string * V → Prop)
    `{∀ e, Decision (P e)} (m : LimitedMap.t string V) (k : string) (v : V) :
  lookup k (delete_all (filter P (entries m)).*1 m) = Some v →
  lookup k m = Some v ∧ ¬ P (k, v).
Proof.
  unfold delete_all. rewrite lookup_delete_keys.
  case_decide as Hin; [done|]. intros Hget. split; [done|].
  intros HP. apply Hin. apply list_elem_of_fmap. exists (k, v). split; [done|].
  apply list_elem_of_filter. split; [done|]. by apply Map_get_elem.
Qed.

Lemma memoryCleanup_fields now heapUsedMB retries s :
  let out := memoryCleanup now heapUsedMB (retries, s) in
  let idle := (filter (λ e, 30 * 60 * 1000 < now - ss_lastActivity e.2)
                 (entries (streamingSessions s))).*1 in
  let old := (filter (λ e, 2 * 60 * 1000 < now - rate_timestamp e.2)
                (entries (rateLimitCache s))).*1 in
  let gone := (filter (λ e, sockets s !! e.2 = None)
                 (entries (connectedUsers s))).*1 in
  let stale := (filter (λ e, 5 * 60 * 1000 < now - retry_lastAttempt e.2)
                  (entries retries)).*1 in
  out.1 = delete_all stale retries
  ∧ streamingSessions out.2 = delete_all idle (streamingSessions s)
  ∧ connectedUsers out.2 = delete_all gone (connectedUsers s)
  ∧ userRooms out.2 = delete_all gone (userRooms s)
  ∧ rateLimitCache out.2
    = (if bool_decide (1200 < heapUsedMB) && bool_decide (1500 < heapUsedMB)
       then clear (delete_all old (rateLimitCache s))
       else delete_all old (rateLimitCache s))
  ∧ messageQueues out.2
    = (if bool_decide (1200 < heapUsedMB) && bool_decide (1500 < heapUsedMB)
       then clear (messageQueues s) else messageQueues s)
  ∧ sockets out.2 = sockets s ∧ waiting out.2 = waiting s
  ∧ redis out.2 = redis s ∧ db out.2 = db s ∧ outbox out.2 = outbox s.
Proof.
  cbn zeta. unfold memoryCleanup.
  destruct (bool_decide (1200 < heapUsedMB) && bool_decide (1500 < heapUsedMB));
    by split_and!.
Qed.

(** X25.  After the janitor nothing stale is left: every user of the registry has
    a connected socket, every streaming session was active in the last 30
    minutes, every bucket is at most 2 minutes old and every retry record at
    most 5; and it sends nothing and touches neither the store nor the
    cache. *)
Theorem janitor_leaves_nothing_stale (now heapUsedMB : Z)
    (retries : LimitedMap.t string RetryEntry) (s : Server) :
  let out := memoryCleanup now heapUsedMB (retries, s) in
  (∀ u c, lookup u (connectedUsers out.2) = Some c → is_Some (sockets out.2 !! c))
  ∧ (∀ sid e, lookup sid (streamingSessions out.2) = Some e →
       now - ss_lastActivity e ≤ 30 * 60 * 1000)
  ∧ (∀ key e, lookup key (rateLimitCache out.2) = Some e →
       now - rate_timestamp e ≤ 2 * 60 * 1000)
  ∧ (∀ key e, lookup key out.1 = Some e →
       now - retry_lastAttempt e ≤ 5 * 60 * 1000)
  ∧ db out.2 = db s ∧ redis out.2 = redis s ∧ outbox out.2 = outbox s.
Proof.
  intros out. subst out.
  destruct (memoryCleanup_fields now heapUsedMB retries s)
    as (Hr & Hss & Hcu & _ & Hrl & _ & Hso & _ & Hre & Hdb & Hout).
  rewrite Hr, Hss, Hcu, Hrl, Hso. split_and!; try done.
  - intros u c Hget.
    apply (lookup_after_sweep (λ e, sockets s !! e.2 = None)) in Hget as [_ Hlive].
    cbn in Hlive. by destruct (sockets s !! c); [eexists|].
  - intros sid e Hget.
    apply (lookup_after_sweep (λ e, 30 * 60 * 1000 < now - ss_lastActivity e.2))
      in Hget as [_ Hfresh].
    cbn in Hfresh. lia.
  - intros key e Hget.
    destruct (_ && _); [done|].
    apply (lookup_after_sweep (λ e, 2 * 60 * 1000 < now - rate_timestamp e.2))
      in Hget as [_ Hfresh].
    cbn in Hfresh. lia.
  - intros key e Hget.
    apply (lookup_after_sweep (λ e, 5 * 60 * 1000 < now - retry_lastAttempt e.2))
      in Hget as [_ Hfresh].
    cbn in Hfresh. lia.
Qed.

(** X26.  The janitor forgets the room of a user together with the user: when the
    socket of a registered user is gone, the user is taken out of the
    registry and out of [userRooms]; a user whose socket is connected keeps
    both. *)
Theorem janitor_forgets_user_and_room (now heapUsedMB : Z)
    (retries : LimitedMap.t string RetryEntry) (s : Server) (u c : string) :
  wf (connectedUsers s) → lookup u (connectedUsers s) = Some c →
  let out := memoryCleanup now heapUsedMB (retries, s) in
  (sockets s !! c = None →
     lookup u (connectedUsers out.2) = None ∧ lookup u (userRooms out.2) = None)
  ∧ (is_Some (sockets s !! c) →
     lookup u (connectedUsers out.2) = Some c
     ∧ lookup u (userRooms out.2) = lookup u (userRooms s)).
Proof.
  intros Hwf Hreg out. subst out.
  destruct (memoryCleanup_fields now heapUsedMB retries s)
    as (_ & _ & Hcu & Hur & _).
  rewrite Hcu, Hur. unfold delete_all. rewrite !lookup_delete_keys.
  assert (u ∈ (filter (λ e : string * string, sockets s !! e.2 = None)
                 (entries (connectedUsers s))).*1
          ↔ sockets s !! c = None) as Hgone.
  { rewrite list_elem_of_fmap. split.
    - intros ([k c'] & -> & Hin). apply list_elem_of_filter in Hin as [Hnone Hin].
      cbn in *. apply (Map_get_of_elem _ _ _ Hwf) in Hin.
      unfold lookup in Hreg. by simplify_eq.
    - intros Hnone. exists (u, c). split; [done|].
      apply list_elem_of_filter. split; [done|]. by apply Map_get_elem. }
  split.
  - intros Hnone. by rewrite !decide_True by (by apply Hgone).
  - intros [sock Hsock].
    rewrite !decide_False by (rewrite Hgone; congruence). done.
Qed.
End janitor.

(** The socket of [u1] is gone without its disconnect having been handled;
    the janitor runs at 200 s. *)
Lemma janitor_forgets_user_and_room_witness :
  let s := set_sockets ∅ Example.joined in
  let out := memoryCleanup 200000 100 (LimitedMap.create 200, s) in
  LimitedMap.lookup "u1" (userRooms s) = Some "r1"
  ∧ LimitedMap.lookup "u1" (connectedUsers out.2) = None
  ∧ LimitedMap.lookup "u1" (userRooms out.2) = None.
Proof.
  intros s out. split; [vm_compute; reflexivity|].
  destruct (janitor_forgets_user_and_room 200000 100 (LimitedMap.create 200) s
              "u1" "c1") as [Hgone _].
  - apply (bool_decide_unpack _). vm_compute. exact I.
  - vm_compute. reflexivity.
  - apply Hgone. vm_compute. reflexivity.
Defined.

(* ================================================================= *)
(** ** Mentions and chunks *)

(** X27.  A message mentions only the two assistants: [handleAIResponse] is never
    started for another [aiType]. *)
Theorem mentions_name_the_two_assistants (content : string) :
  Forall (λ ai, ai = "wayneAI" ∨ ai = "consultingAI") (aiMentions content).
Proof.
  induction content as [|ch rest IH]; [constructor|].
  cbn [aiMentions]. apply Forall_app. split; [|exact IH].
  destruct (word_at "@wayneAI" _); [by repeat constructor; left|].
  destruct (word_at "@consultingAI" _); [by repeat constructor; right|].
  constructor.
Qed.

Section chunks.
Variables (now : Z) (roomId aiType : string).

Lemma chunks_state (chunks : list (Z * string)) (s : Server) :
  let sid := AI_sessionId roomId aiType now in
  let st := foldl (callback roomId aiType sid)
              ([], handleAIResponse_start now roomId aiType s)
              ((λ p, (p.1, Chunk p.2)) <$> chunks) in
  (∃ session, LimitedMap.lookup sid (streamingSessions st.2) = Some session
              ∧ ss_content session = foldl (λ acc p, acc +:+ p.2) "" chunks)
  ∧ (∀ t chunk, last chunks = Some (t, chunk) →
       last (outbox st.2)
       = Some (mkEmit (ToRoom roomId) "aiMessageChunk"
                 (JObj [("sessionId", JStr sid); ("chunk", JStr chunk);
                        ("fullContent",
                         JStr (foldl (λ acc p, acc +:+ p.2) "" chunks))]))).
Proof.
  intros sid. induction chunks as [|[t chunk] chunks IH] using rev_ind.
  - cbn. split; [|done]. eexists. split; [apply lookup_set_eq|done].
  - rewrite fmap_app, !foldl_app. cbn [fmap list_fmap foldl fst snd].
    destruct IH as [(session & Hl & Hcontent) _].
    match goal with |- context [callback _ _ _ ?x _] => set (st0 := x) in * end.
    unfold callback. cbn [fst snd]. unfold onChunk, LimitedMap.get.
    rewrite Hl. cbn [truthy option_truthy StreamSession_truthy].
    cbn -[emit LimitedMap.mutate LimitedMap.lookup sid].
    split.
    + eexists. split.
      * unfold emit. cbn [streamingSessions set_outbox set_streamingSessions].
        rewrite lookup_mutate, decide_True by done.
        change (LimitedMap.lookup sid ?m) with (LimitedMap.lookup sid (streamingSessions st0.2)).
        rewrite Hl. reflexivity.
      * cbn. by rewrite Hcontent.
    + intros t' chunk' Hlast. rewrite last_snoc in Hlast. injection Hlast as <- <-.
      unfold emit. cbn [outbox set_outbox]. rewrite last_snoc.
      by rewrite Hcontent.
Qed.

(** X28.  The chunks of an answer add up: after any number of [onChunk] calls the
    session holds their concatenation, and the last [aiMessageChunk] carries
    it as [fullContent]. *)
Theorem chunks_add_up (chunks : list (Z * string)) (s : Server) :
  let sid := AI_sessionId roomId aiType now in
  let s' := handleAIResponse now roomId aiType
              ((λ p, (p.1, Chunk p.2)) <$> chunks) s in
  ss_content <$> LimitedMap.lookup sid (streamingSessions s')
  = Some (foldl (λ acc p, acc +:+ p.2) "" chunks)
  ∧ (∀ t chunk, last chunks = Some (t, chunk) →
       last (outbox s')
       = Some (mkEmit (ToRoom roomId) "aiMessageChunk"
                 (JObj [("sessionId", JStr sid); ("chunk", JStr chunk);
                        ("fullContent",
                         JStr (foldl (λ acc p, acc +:+ p.2) "" chunks))]))).
Proof.
  intros sid s'. subst s'. unfold handleAIResponse.
  destruct (chunks_state chunks s) as [(session & Hl & Hcontent) Hlast].
  fold sid in Hl, Hlast |- *. split; [|exact Hlast].
  rewrite Hl. cbn. by rewrite Hcontent.
Qed.
End chunks.
